(** * RoadTerm: terminal utilities (src/roadterm/term.py)

    A shallow embedding of the terminal toolkit: the [Color] and [Style]
    enumerations, [Terminal] (escape emission on a stream), [ProgressBar],
    [Spinner] and [Box].

    Conventions of the embedding:
    - a Python [str] is the list of its Unicode code points ([pystr]), so
      that [len] is [length] and every glyph counts for one character;
    - a Python [int] is a [Z];
    - a Python [float] is an IEEE 754 binary64 value, [spec_float] with the
      Standard Library's specification of its rounding;
    - a stream is the log of the chunks handed to its [write];
    - a method that mutates [self] returns the new object; code that can
      raise returns a [result], a method that does both returns the object
      after the call together with the outcome;
    - the limits are those of 64-bit CPython with its default settings: a
      count or a width is an [ssize_t], an int of more than 4300 digits
      has no decimal text. *)

From Stdlib Require Import String Ascii DecimalString DecimalPos DecimalZ.
From Stdlib Require Import ZArith List Bool Lia.
From Stdlib Require Import Floats.SpecFloat.
Import ListNotations.
Local Open Scope Z_scope.

(** ** Python strings *)

Definition pychar := Z.
Definition pystr := list pychar.

(** The code points of an ASCII literal. *)
Definition lit (s : string) : pystr :=
  map (fun a => Z.of_N (N_of_ascii a)) (list_ascii_of_string s).

(** [len(s)] *)
Definition len (s : pystr) : Z := Z.of_nat (length s).

(** [n] copies of [s] in a row: none for a count of zero or less. *)
Definition copies (s : pystr) (n : Z) : pystr :=
  concat (repeat s (Z.to_nat n)).

(** [s] with spaces on its right up to [w] characters; a string of [w]
    characters or more as it is. *)
Definition pad_right (s : pystr) (w : Z) : pystr :=
  s ++ repeat 32 (Z.to_nat (w - len s)).

(** [s.rjust(w)], the padding of a right-aligned format field. *)
Definition rjust (s : pystr) (w : Z) : pystr :=
  repeat 32 (Z.to_nat (w - len s)) ++ s.

(** [sep.join(parts)] *)
Fixpoint join (sep : pystr) (parts : list pystr) : pystr :=
  match parts with
  | [] => []
  | [p] => p
  | p :: rest => p ++ sep ++ join sep rest
  end.

(** [s.split(sep)] for a separator of one character [c]: the pieces between
    the occurrences of [c]; never an empty list. *)
Fixpoint split (c : pychar) (s : pystr) : list pystr :=
  match s with
  | [] => [[]]
  | x :: s' =>
      if x =? c then [] :: split c s'
      else match split c s' with
           | [] => [[x]]
           | p :: ps => (x :: p) :: ps
           end
  end.

(** The decimal text of an int: a minus sign for a negative one, then
    its digits. *)
Definition str_of_int (n : Z) : pystr :=
  lit (NilZero.string_of_int (Z.to_int n)).

(** The number of decimal digits of an int, its sign apart. *)
Definition ndigits (n : Z) : Z := len (str_of_int (Z.abs n)).

(** ** Exceptions *)

Inductive exn := OverflowError | ValueError | ZeroDivisionError | IndexError.

Inductive result (A : Type) :=
| Ok (a : A)
| Raise (e : exn).
Arguments Ok {A} a.
Arguments Raise {A} e.

Definition bind {A B} (r : result A) (k : A -> result B) : result B :=
  match r with
  | Ok a => k a
  | Raise e => Raise e
  end.

Notation "x <- r ;; k" := (bind r (fun x => k))
  (at level 61, r at next level, right associativity).

(** ** Methods that mutate [self] and may raise *)

(** The object after the call (also when it raised) and the outcome. *)
Definition M (S A : Type) : Type := S -> S * result A.

Definition ret {S A} (a : A) : M S A := fun s => (s, Ok a).

Definition bindM {S A B} (m : M S A) (k : A -> M S B) : M S B :=
  fun s =>
    match m s with
    | (s', Ok a) => k a s'
    | (s', Raise e) => (s', Raise e)
    end.

Definition get {S} : M S S := fun s => (s, Ok s).
Definition modify {S} (f : S -> S) : M S unit := fun s => (f s, Ok tt).
Definition lift {S A} (r : result A) : M S A := fun s => (s, r).

Declare Scope method_scope.
Delimit Scope method_scope with method.
Notation "x <~ m ;; k" := (bindM m (fun x => k))
  (at level 61, m at next level, right associativity) : method_scope.
Notation "m ;;; k" := (bindM m (fun _ => k))
  (at level 61, right associativity) : method_scope.

(** ** Operations on strings and ints that can raise *)

(** The largest [ssize_t]. *)
Definition PY_SSIZE_T_MAX : Z := 2 ^ 63 - 1.

(** An int used as a count or as a width: [OverflowError] when it is not
    an [ssize_t]. *)
Definition as_ssize_t (n : Z) : result Z :=
  if (n <? - PY_SSIZE_T_MAX - 1) || (PY_SSIZE_T_MAX <? n)
  then Raise OverflowError
  else Ok n.

(** [s * n]: a count of zero or less gives the empty string; a count that
    is not an [ssize_t], or a result longer than one, raises
    [OverflowError]. *)
Definition str_mul (s : pystr) (n : Z) : result pystr :=
  n <- as_ssize_t n ;;
  if (0 <? n) && (PY_SSIZE_T_MAX / n <? len s) then Raise OverflowError
  else Ok (copies s n).

(** [s.ljust(w)]: pads with spaces on the right up to [w] characters; a
    string of [w] characters or more comes back as it is; a width that
    is not an [ssize_t] raises [OverflowError]. *)
Definition ljust (s : pystr) (w : Z) : result pystr :=
  w <- as_ssize_t w ;;
  Ok (pad_right s w).

(** The most digits that an int may have when it is turned into text. *)
Definition max_str_digits : Z := 4300.

(** [str(n)] and the [{n}] of an f-string, for an int: [ValueError] for
    an int of more than [max_str_digits] digits. *)
Definition format_int (n : Z) : result pystr :=
  if max_str_digits <? ndigits n then Raise ValueError
  else Ok (str_of_int n).

(** [int(s)] on a string of decimal digits (all that [Color] values are);
    anything else is a [ValueError]. *)
Definition digit_of (c : pychar) : option Z :=
  if (48 <=? c) && (c <=? 57) then Some (c - 48) else None.

Fixpoint int_of_digits (acc : Z) (s : pystr) : result Z :=
  match s with
  | [] => Ok acc
  | c :: s' =>
      match digit_of c with
      | Some d => int_of_digits (10 * acc + d) s'
      | None => Raise ValueError
      end
  end.

Definition int_of_str (s : pystr) : result Z :=
  match s with
  | [] => Raise ValueError
  | _ => int_of_digits 0 s
  end.

(** ** Color and Style *)

Inductive Color :=
| BLACK | RED | GREEN | YELLOW | BLUE | MAGENTA | CYAN | WHITE | DEFAULT
| BRIGHT_BLACK | BRIGHT_RED | BRIGHT_GREEN | BRIGHT_YELLOW | BRIGHT_BLUE
| BRIGHT_MAGENTA | BRIGHT_CYAN | BRIGHT_WHITE.

Definition Color_value (c : Color) : pystr :=
  match c with
  | BLACK => lit "30" | RED => lit "31" | GREEN => lit "32"
  | YELLOW => lit "33" | BLUE => lit "34" | MAGENTA => lit "35"
  | CYAN => lit "36" | WHITE => lit "37" | DEFAULT => lit "39"
  | BRIGHT_BLACK => lit "90" | BRIGHT_RED => lit "91"
  | BRIGHT_GREEN => lit "92" | BRIGHT_YELLOW => lit "93"
  | BRIGHT_BLUE => lit "94" | BRIGHT_MAGENTA => lit "95"
  | BRIGHT_CYAN => lit "96" | BRIGHT_WHITE => lit "97"
  end.

Inductive Style :=
| RESET | BOLD | DIM | ITALIC | UNDERLINE | BLINK | REVERSE | HIDDEN
| STRIKETHROUGH.

Definition Style_value (s : Style) : pystr :=
  match s with
  | RESET => lit "0" | BOLD => lit "1" | DIM => lit "2" | ITALIC => lit "3"
  | UNDERLINE => lit "4" | BLINK => lit "5" | REVERSE => lit "7"
  | HIDDEN => lit "8" | STRIKETHROUGH => lit "9"
  end.

(** ** Streams and Terminal *)

(** An output stream: what [isatty()] answers, and the chunks written so
    far, oldest first ([flush] leaves both alone). *)
Record Stream := { isatty : bool; written : list pystr }.

Definition stream_write (s : Stream) (text : pystr) : Stream :=
  {| isatty := isatty s; written := written s ++ [text] |}.

(** All the text the stream has received. *)
Definition contents (s : Stream) : pystr := concat (written s).

Record Terminal := { stream : Stream; _is_tty : bool }.

Definition ESC : pystr := [27].
Definition CSI : pystr := ESC ++ lit "[".

(** [Terminal(stream)]: [stream or sys.stdout], and [isatty()] asked once. *)
Definition Terminal_init (sys_stdout : Stream) (s : option Stream) : Terminal :=
  let st := match s with Some st => st | None => sys_stdout end in
  {| stream := st; _is_tty := isatty st |}.

Definition is_tty (t : Terminal) : bool := _is_tty t.

Definition write (t : Terminal) (text : pystr) : Terminal :=
  {| stream := stream_write (stream t) text; _is_tty := _is_tty t |}.

Definition writeln (t : Terminal) (text : pystr) : Terminal :=
  write t (text ++ lit (String "010"%char EmptyString)).

Definition _escape (t : Terminal) (code : pystr) : pystr :=
  if _is_tty t then CSI ++ code else [].

(** The f-string of [move] is built before anything is written: an
    argument without a decimal text raises and the stream is left as it
    was. The same holds for the other operations that take an int. *)
Definition move (row col : Z) : M Terminal unit :=
  (r <~ lift (format_int (row + 1)) ;;
   c <~ lift (format_int (col + 1)) ;;
   modify (fun self => write self (_escape self (r ++ lit ";" ++ c ++ lit "H"))))%method.

Definition clear : M Terminal unit :=
  (modify (fun self => write self (_escape self (lit "2J"))) ;;;
   move 0 0)%method.

Definition clear_line (t : Terminal) : Terminal :=
  write t (_escape t (lit "2K")).

Definition clear_to_end (t : Terminal) : Terminal :=
  write t (_escape t (lit "0J")).

Definition move_up (n : Z) : M Terminal unit :=
  (s <~ lift (format_int n) ;;
   modify (fun self => write self (_escape self (s ++ lit "A"))))%method.

Definition move_down (n : Z) : M Terminal unit :=
  (s <~ lift (format_int n) ;;
   modify (fun self => write self (_escape self (s ++ lit "B"))))%method.

Definition move_right (n : Z) : M Terminal unit :=
  (s <~ lift (format_int n) ;;
   modify (fun self => write self (_escape self (s ++ lit "C"))))%method.

Definition move_left (n : Z) : M Terminal unit :=
  (s <~ lift (format_int n) ;;
   modify (fun self => write self (_escape self (s ++ lit "D"))))%method.

Definition move_to_column (col : Z) : M Terminal unit :=
  (s <~ lift (format_int (col + 1)) ;;
   modify (fun self => write self (_escape self (s ++ lit "G"))))%method.

Definition save_cursor (t : Terminal) : Terminal :=
  write t (_escape t (lit "s")).

Definition restore_cursor (t : Terminal) : Terminal :=
  write t (_escape t (lit "u")).

Definition hide_cursor (t : Terminal) : Terminal :=
  write t (_escape t (lit "?25l")).

Definition show_cursor (t : Terminal) : Terminal :=
  write t (_escape t (lit "?25h")).

Definition BEL : pystr := [7].

Definition set_title (t : Terminal) (title : pystr) : Terminal :=
  write t (ESC ++ lit "]0;" ++ title ++ BEL).

Definition bell (t : Terminal) : Terminal :=
  write t BEL.

Definition style (t : Terminal) (styles : list Style) : pystr :=
  if negb (_is_tty t) then []
  else
    let codes := join (lit ";") (map Style_value styles) in
    CSI ++ codes ++ lit "m".

Definition fg (t : Terminal) (color : Color) : pystr :=
  if negb (_is_tty t) then []
  else CSI ++ Color_value color ++ lit "m".

Definition bg (t : Terminal) (color : Color) : result pystr :=
  if negb (_is_tty t) then Ok []
  else
    n <- int_of_str (Color_value color) ;;
    code <- format_int (n + 10) ;;
    Ok (CSI ++ code ++ lit "m").

Definition rgb_fg (t : Terminal) (r g b : Z) : result pystr :=
  if negb (_is_tty t) then Ok []
  else
    r <- format_int r ;;
    g <- format_int g ;;
    b <- format_int b ;;
    Ok (CSI ++ lit "38;2;" ++ r ++ lit ";" ++ g ++ lit ";" ++ b ++ lit "m").

Definition rgb_bg (t : Terminal) (r g b : Z) : result pystr :=
  if negb (_is_tty t) then Ok []
  else
    r <- format_int r ;;
    g <- format_int g ;;
    b <- format_int b ;;
    Ok (CSI ++ lit "48;2;" ++ r ++ lit ";" ++ g ++ lit ";" ++ b ++ lit "m").

Definition reset (t : Terminal) : pystr :=
  if negb (_is_tty t) then []
  else CSI ++ lit "0m".

(** [colored(text, fg, bg, *styles)]; [None] is the default of [fg] and
    [bg], every [Color] is truthy (a non-empty [str]), a tuple of styles is
    truthy when it is not empty. *)
Definition colored (t : Terminal) (text : pystr) (fg_ bg_ : option Color)
    (styles : list Style) : result pystr :=
  if negb (_is_tty t) then Ok text
  else
    let prefix := [] in
    let prefix :=
      match styles with
      | [] => prefix
      | _ => prefix ++ style t styles
      end in
    let prefix :=
      match fg_ with
      | Some c => prefix ++ fg t c
      | None => prefix
      end in
    prefix <- match bg_ with
              | Some c => s <- bg t c ;; Ok (prefix ++ s)
              | None => Ok prefix
              end ;;
    Ok (prefix ++ text ++ reset t).

(** ** Python floats (IEEE 754 binary64) *)

Definition prec : Z := 53.
Definition emax : Z := 1024.

(** [float(n)] for an int, as the arithmetic operators apply it to an int
    operand: the nearest double, ties to even; an int beyond the range of
    a double raises [OverflowError]. *)
Definition float_of_int (n : Z) : result spec_float :=
  match binary_normalize prec emax n 0 false with
  | S754_infinity _ => Raise OverflowError
  | f => Ok f
  end.

(** [a / b] for two ints (true division): the double nearest to the exact
    quotient, ties to even; a zero divisor raises [ZeroDivisionError], a
    quotient beyond the range of a double raises [OverflowError]. *)
Definition int_truediv (a b : Z) : result spec_float :=
  if b =? 0 then Raise ZeroDivisionError
  else
    let negate := xorb (a <? 0) (b <? 0) in
    if a =? 0 then Ok (S754_zero negate)
    else
      let '(q, e, l) := SFdiv_core_binary prec emax (Z.abs a) 0 (Z.abs b) 0 in
      match binary_round_aux prec emax negate q e l with
      | S754_infinity _ => Raise OverflowError
      | f => Ok f
      end.

(** [int(x)] for a float: truncation towards zero. *)
Definition int_of_float (x : spec_float) : result Z :=
  match x with
  | S754_zero _ => Ok 0
  | S754_infinity _ => Raise OverflowError
  | S754_nan => Raise ValueError
  | S754_finite s m e =>
      let a := if 0 <=? e then Z.pos m * 2 ^ e else Z.pos m / 2 ^ (- e) in
      Ok (if s then - a else a)
  end.

(** The number of tenths nearest to [m * 2^e], ties to even: the digits
    that [format(x, ".1f")] prints for the double [m * 2^e]. *)
Definition tenths (m : positive) (e : Z) : Z :=
  if 0 <=? e then 10 * Z.pos m * 2 ^ e
  else
    let d := 2 ^ (- e) in
    let q := (10 * Z.pos m) / d in
    let r := (10 * Z.pos m) mod d in
    match 2 * r ?= d with
    | Lt => q
    | Gt => q + 1
    | Eq => if Z.even q then q else q + 1
    end.

(** The unsigned decimal text of a number of tenths: [1234] is [123.4]. *)
Definition str_of_tenths (t : Z) : pystr :=
  str_of_int (t / 10) ++ lit "." ++ str_of_int (t mod 10).

(** [format(x, "5.1f")] for a float: one decimal, correctly rounded, the
    sign of the double kept, right-aligned in at least 5 characters. *)
Definition format_5_1f (x : spec_float) : pystr :=
  let sign (s : bool) := if s then lit "-" else [] in
  let body :=
    match x with
    | S754_nan => lit "nan"
    | S754_infinity s => sign s ++ lit "inf"
    | S754_zero s => sign s ++ lit "0.0"
    | S754_finite s m e => sign s ++ str_of_tenths (tenths m e)
    end in
  rjust body 5.

(** A value that is an int on one path and a float on another. *)
Inductive num :=
| Int (n : Z)
| Float (x : spec_float).

(** [w * x] and [x * k] with an int on one side. *)
Definition int_mul_num (w : Z) (x : num) : result num :=
  match x with
  | Int n => Ok (Int (w * n))
  | Float f => wf <- float_of_int w ;; Ok (Float (SFmul prec emax wf f))
  end.

Definition num_mul_int (x : num) (k : Z) : result num :=
  match x with
  | Int n => Ok (Int (n * k))
  | Float f => kf <- float_of_int k ;; Ok (Float (SFmul prec emax f kf))
  end.

(** [int(x)] *)
Definition int_of_num (x : num) : result Z :=
  match x with
  | Int n => Ok n
  | Float f => int_of_float f
  end.

(** [f"{x:5.1f}"]: an int is converted to a float first. *)
Definition format_num_5_1f (x : num) : result pystr :=
  match x with
  | Int n => f <- float_of_int n ;; Ok (format_5_1f f)
  | Float f => Ok (format_5_1f f)
  end.

(** ** ProgressBar *)

Record ProgressBar := {
  total : Z;
  width : Z;
  term : Terminal;
  current : Z;
  _started : bool
}.

Definition FILLED : pystr := [9608].     (* U+2588 full block *)
Definition UNFILLED : pystr := [9617].   (* U+2591 light shade *)

(** [ProgressBar(total, width=40, term=None)] *)
Definition ProgressBar_init (sys_stdout : Stream) (total_ : Z)
    (width_ : option Z) (term_ : option Terminal) : ProgressBar :=
  {| total := total_;
     width := match width_ with Some w => w | None => 40 end;
     term := match term_ with
             | Some t => t
             | None => Terminal_init sys_stdout None
             end;
     current := 0;
     _started := false |}.

Definition set_current (c : Z) (self : ProgressBar) : ProgressBar :=
  {| total := total self; width := width self; term := term self;
     current := c; _started := _started self |}.

Definition set_started (b : bool) (self : ProgressBar) : ProgressBar :=
  {| total := total self; width := width self; term := term self;
     current := current self; _started := b |}.

Definition on_term (f : Terminal -> Terminal) (self : ProgressBar) : ProgressBar :=
  {| total := total self; width := width self; term := f (term self);
     current := current self; _started := _started self |}.

(** A method of [self.term] called from a method of the bar. *)
Definition in_term {A} (m : M Terminal A) : M ProgressBar A :=
  fun self =>
    let '(t, r) := m (term self) in
    (on_term (fun _ => t) self, r).

(** [update(current=None, message=...)], the default message being the
    empty string. *)
Definition update (current_ : option Z) (message : pystr) : M ProgressBar unit :=
  (self <~ get ;;
   modify (set_current match current_ with
                       | Some c => c
                       | None => current self + 1
                       end) ;;;
   (if _started self
    then in_term (move_up 1) ;;;
         modify (on_term clear_line)
    else ret tt) ;;;
   modify (set_started true) ;;;
   self <~ get ;;
   pct <~ lift (if total self >? 0
                then q <- int_truediv (current self) (total self) ;; Ok (Float q)
                else Ok (Int 0)) ;;
   filled <~ lift (p <- int_mul_num (width self) pct ;; int_of_num p) ;;
   bar <~ lift (done <- str_mul FILLED filled ;;
                todo <- str_mul UNFILLED (width self - filled) ;;
                Ok (done ++ todo)) ;;
   shown <~ lift (p <- num_mul_int pct 100 ;; format_num_5_1f p) ;;
   let line := lit "[" ++ bar ++ lit "] " ++ shown ++ lit "%" in
   let line := match message with
               | [] => line
               | _ => line ++ lit " " ++ message
               end in
   modify (on_term (fun t => writeln t line)))%method.

(** [finish(message="Done!")] *)
Definition finish (message : option pystr) : M ProgressBar unit :=
  fun self =>
    update (Some (total self))
           (match message with Some m => m | None => lit "Done!" end) self.

(** ** Spinner *)

(** [l[i]]: a negative index counts from the end, an index out of range
    raises [IndexError]. *)
Definition index {A} (l : list A) (i : Z) : result A :=
  let j := if i <? 0 then i + Z.of_nat (length l) else i in
  if j <? 0 then Raise IndexError
  else match nth_error l (Z.to_nat j) with
       | Some a => Ok a
       | None => Raise IndexError
       end.

Record Spinner := {
  message : pystr;
  spinner_term : Terminal;
  _frame : Z;
  _running : bool
}.

Definition FRAMES : list pystr :=
  [[10251]; [10265]; [10297]; [10296]; [10300];
   [10292]; [10278]; [10279]; [10247]; [10255]].

(** [Spinner(message="Loading...", term=None)] *)
Definition Spinner_init (sys_stdout : Stream) (message_ : option pystr)
    (term_ : option Terminal) : Spinner :=
  {| message := match message_ with Some m => m | None => lit "Loading..." end;
     spinner_term := match term_ with
                     | Some t => t
                     | None => Terminal_init sys_stdout None
                     end;
     _frame := 0;
     _running := false |}.

Definition on_spinner_term (f : Terminal -> Terminal) (self : Spinner) : Spinner :=
  {| message := message self; spinner_term := f (spinner_term self);
     _frame := _frame self; _running := _running self |}.

Definition set_frame (n : Z) (self : Spinner) : Spinner :=
  {| message := message self; spinner_term := spinner_term self;
     _frame := n; _running := _running self |}.

(** A method of [self.term] called from a method of the spinner. *)
Definition in_spinner_term {A} (m : M Terminal A) : M Spinner A :=
  fun self =>
    let '(t, r) := m (spinner_term self) in
    (on_spinner_term (fun _ => t) self, r).

(** [spin()] *)
Definition spin : M Spinner unit :=
  (in_spinner_term (move_to_column 0) ;;;
   modify (on_spinner_term clear_line) ;;;
   self <~ get ;;
   frame <~ lift (index FRAMES (_frame self mod Z.of_nat (length FRAMES))) ;;
   modify (on_spinner_term (fun t => write t (frame ++ lit " " ++ message self))) ;;;
   modify (set_frame (_frame self + 1)))%method.

(** [stop(message=None)]; an empty message is falsy like [None]. *)
Definition stop (message_ : option pystr) : M Spinner unit :=
  (in_spinner_term (move_to_column 0) ;;;
   modify (on_spinner_term clear_line) ;;;
   match message_ with
   | Some (c :: m) =>
       modify (on_spinner_term (fun t => writeln t ([10003] ++ lit " " ++ c :: m)))
   | _ => ret tt
   end)%method.

(** [n] calls of [spin()] in a row; a call that raises ends the run. *)
Fixpoint spins (n : nat) : M Spinner unit :=
  match n with
  | O => ret tt
  | S k => (spins k ;;; spin)%method
  end.

(** The chunk that the latest [write] handed to the stream. *)
Definition last_written (t : Terminal) : pystr :=
  last (written (stream t)) [].

(** ** Box *)

(** The border glyphs of a style: corners, horizontal and vertical edge. *)
Definition glyphs : Type := (pystr * pystr * pystr * pystr * pystr * pystr)%type.

Fixpoint str_eqb (a b : pystr) : bool :=
  match a, b with
  | [], [] => true
  | x :: a', y :: b' => (x =? y) && str_eqb a' b'
  | _, _ => false
  end.

Definition single_glyphs : glyphs :=
  ([9484], [9488], [9492], [9496], [9472], [9474]).
Definition double_glyphs : glyphs :=
  ([9556], [9559], [9562], [9565], [9552], [9553]).
Definition rounded_glyphs : glyphs :=
  ([9581], [9582], [9584], [9583], [9472], [9474]).
Definition heavy_glyphs : glyphs :=
  ([9487], [9491], [9495], [9499], [9473], [9475]).

Definition STYLES : list (pystr * glyphs) :=
  [ (lit "single", single_glyphs);
    (lit "double", double_glyphs);
    (lit "rounded", rounded_glyphs);
    (lit "heavy", heavy_glyphs) ].

(** [d.get(key, default)] *)
Fixpoint dict_get {V} (d : list (pystr * V)) (key : pystr) (default : V) : V :=
  match d with
  | [] => default
  | (k, v) :: d' => if str_eqb k key then v else dict_get d' key default
  end.

(** [d[key]]; the one key looked up this way is present. *)
Definition STYLES_single : glyphs := dict_get STYLES (lit "single") single_glyphs.

(** [max(...)] of a sequence of ints: [ValueError] when it is empty. *)
Definition py_max (l : list Z) : result Z :=
  match l with
  | [] => Raise ValueError
  | x :: l' => Ok (fold_left Z.max l' x)
  end.

Definition NL : pychar := 10.

(** [Box.draw(content, width=None, style="single", term=None)]; [term] is
    bound and never used. *)
Definition draw (sys_stdout : Stream) (content : pystr) (width_ : option Z)
    (style_ : pystr) (term_ : option Terminal) : result pystr :=
  let _term := match term_ with
               | Some t => t
               | None => Terminal_init sys_stdout None
               end in
  let '(tl, tr, bl, br, h, v) := dict_get STYLES style_ STYLES_single in
  let lines := split NL content in
  max_len <- py_max (map len lines) ;;
  let width_ := match width_ with
                | None | Some 0 => max_len + 4
                | Some w => w
                end in
  let inner_width := width_ - 2 in
  let result_ := [] in
  top <- str_mul h inner_width ;;
  let result_ := result_ ++ [tl ++ top ++ tr] in
  result_ <- fold_left (fun acc line =>
                          result_ <- acc ;;
                          padded <- ljust line inner_width ;;
                          Ok (result_ ++ [v ++ padded ++ v]))
                       lines (Ok result_) ;;
  bottom <- str_mul h inner_width ;;
  let result_ := result_ ++ [bl ++ bottom ++ br] in
  Ok (join [NL] result_).

(** ** The sequences the protocol table names *)

(** What the styling section promises on a TTY, part by part: nothing for
    a part that is not supplied. *)
Definition styles_sequence (styles : list Style) : pystr :=
  match styles with
  | [] => []
  | _ => [27; 91] ++ join [59] (map Style_value styles) ++ [109]
  end.

(** The numeric foreground parameter of a colour, as the data model lists
    them: 30-37, 39 for the default, 90-97. *)
Definition Color_code (c : Color) : Z :=
  match c with
  | BLACK => 30 | RED => 31 | GREEN => 32 | YELLOW => 33 | BLUE => 34
  | MAGENTA => 35 | CYAN => 36 | WHITE => 37 | DEFAULT => 39
  | BRIGHT_BLACK => 90 | BRIGHT_RED => 91 | BRIGHT_GREEN => 92
  | BRIGHT_YELLOW => 93 | BRIGHT_BLUE => 94 | BRIGHT_MAGENTA => 95
  | BRIGHT_CYAN => 96 | BRIGHT_WHITE => 97
  end.

Definition fg_sequence (c : option Color) : pystr :=
  match c with
  | None => []
  | Some c => [27; 91] ++ str_of_int (Color_code c) ++ [109]
  end.

Definition bg_sequence (c : option Color) : pystr :=
  match c with
  | None => []
  | Some c => [27; 91] ++ str_of_int (Color_code c + 10) ++ [109]
  end.

(** A call that leaves the text of the stream as it was: every chunk it
    wrote is the empty string. *)
Definition silent (before after : Terminal) : Prop :=
  _is_tty after = _is_tty before /\
  isatty (stream after) = isatty (stream before) /\
  (exists k, written (stream after) = written (stream before) ++ repeat [] k) /\
  contents (stream after) = contents (stream before).

(** The chunk written by the [n]-th of [n] calls of [spin()] in a row. *)
Definition nth_spin_chunk (n : nat) (s0 : Spinner) : result pystr :=
  match spins n s0 with
  | (s, Ok _) => Ok (last_written (spinner_term s))
  | (_, Raise e) => Raise e
  end.

(** The text that follows the percent sign: a space and the message, when
    there is a message. *)
Definition message_suffix (message_ : pystr) : pystr :=
  match message_ with
  | [] => []
  | _ => lit " " ++ message_
  end.

(** The part of [update] that comes before the arithmetic: the new
    [current], the cursor escapes of a redraw, the [_started] flag. *)
Definition redrawn (current_ : option Z) (self : ProgressBar) : ProgressBar :=
  {| total := total self;
     width := width self;
     term := if _started self
             then clear_line (write (term self) (_escape (term self) (lit "1A")))
             else term self;
     current := match current_ with Some c => c | None => current self + 1 end;
     _started := true |}.

(** ** Comparing doubles with ints *)

(** Order between a double that is not negative and an int: [x <= W]
    compares [m * 2^e] with [W], both scaled to integers. *)
Definition float_le_int (x : spec_float) (W : Z) : Prop :=
  match x with
  | S754_zero false => 0 <= W
  | S754_finite false m e => Z.pos m * 2 ^ Z.max 0 e <= W * 2 ^ Z.max 0 (- e)
  | _ => False
  end.

(** [W <= x] for a positive double [x]. *)
Definition float_ge_int (x : spec_float) (W : Z) : Prop :=
  match x with
  | S754_finite false m e => W * 2 ^ Z.max 0 (- e) <= Z.pos m * 2 ^ Z.max 0 e
  | _ => False
  end.

(** [+0.0] or a positive finite double. *)
Definition nonneg_float (x : spec_float) : Prop :=
  match x with
  | S754_zero false | S754_finite false _ _ => True
  | _ => False
  end.

(** The tenths that [format_5_1f] prints for a double. *)
Definition float_tenths (x : spec_float) : Z :=
  match x with
  | S754_finite _ m e => tenths m e
  | _ => 0
  end.

(** ** Definitions for the further properties *)

(** What a call did to the stream of a terminal: it wrote [chunks], in
    this order, after what was there, and left [is_tty] alone. *)
Definition appends (before after : Terminal) (chunks : list pystr) : Prop :=
  _is_tty after = _is_tty before /\
  isatty (stream after) = isatty (stream before) /\
  written (stream after) = written (stream before) ++ chunks.

(** Printable ASCII. *)
Definition plain (c : pychar) : Prop := 32 <= c <= 126.

(** One of the two glyphs of a bar. *)
Definition bar_glyph (c : pychar) : Prop := c = 9608 \/ c = 9617.

(** The cursor chunks of a redraw: none on the first [update]. *)
Definition redraw_chunks (b : ProgressBar) : list pystr :=
  if _started b
  then [_escape (term b) (lit "1A"); _escape (term b) (lit "2K")]
  else [].

(** [n] calls of [update()] in a row, each without arguments; a call that
    raises ends the run. *)
Fixpoint ticks (n : nat) : M ProgressBar unit :=
  match n with
  | O => ret tt
  | S k => (ticks k ;;; update None [])%method
  end.

(** The text that the [k]-th call of [spin()] adds to the stream, for a
    spinner whose counter was [f0] before the first call: the two cursor
    sequences, then the frame and the message. *)
Definition spin_text (t : Terminal) (msg : pystr) (f0 : Z) (k : nat) : pystr :=
  _escape t (lit "1G") ++ _escape t (lit "2K")
  ++ nth (Z.to_nat ((f0 + Z.of_nat k) mod 10)) FRAMES [] ++ lit " " ++ msg.

(** The width that [Box.draw] works with: the one given, unless it is
    [None] or 0. *)
Definition box_width (width_ : option Z) (max_len : Z) : Z :=
  match width_ with
  | None | Some 0 => max_len + 4
  | Some w => w
  end.


(* ================================================================= *)
(** * Properties *)

(** ** Counts, widths and the text of ints *)

Lemma as_ssize_t_ok n : - 2 ^ 63 <= n < 2 ^ 63 -> as_ssize_t n = Ok n.
Proof.
  intros H. unfold as_ssize_t, PY_SSIZE_T_MAX.
  destruct (Z.ltb_spec n (- (2 ^ 63 - 1) - 1)); [lia|].
  destruct (Z.ltb_spec (2 ^ 63 - 1) n); [lia|]. reflexivity.
Qed.

Lemma as_ssize_t_raise n :
  n < - 2 ^ 63 \/ 2 ^ 63 <= n -> as_ssize_t n = Raise OverflowError.
Proof.
  intros H. unfold as_ssize_t, PY_SSIZE_T_MAX.
  destruct (Z.ltb_spec n (- (2 ^ 63 - 1) - 1)); [reflexivity|].
  destruct (Z.ltb_spec (2 ^ 63 - 1) n); [reflexivity|lia].
Qed.

Lemma str_mul_ok (s : pystr) (n : Z) :
  - 2 ^ 63 <= n < 2 ^ 63 -> len s <= 1 -> str_mul s n = Ok (copies s n).
Proof.
  intros H L. unfold str_mul. rewrite as_ssize_t_ok by exact H. cbn [bind].
  destruct (Z.ltb_spec 0 n) as [P|P]; [|reflexivity].
  cbn [andb].
  destruct (Z.ltb_spec (PY_SSIZE_T_MAX / n) (len s)) as [Q|Q]; [|reflexivity].
  exfalso. unfold PY_SSIZE_T_MAX in Q.
  assert (1 <= (2 ^ 63 - 1) / n) by (apply Z.div_le_lower_bound; lia).
  lia.
Qed.

Lemma str_mul_raise (s : pystr) (n : Z) :
  n < - 2 ^ 63 \/ 2 ^ 63 <= n -> str_mul s n = Raise OverflowError.
Proof. intros H. unfold str_mul. now rewrite as_ssize_t_raise. Qed.

Lemma copies_glyph (g : pychar) (n : Z) : copies [g] n = repeat g (Z.to_nat n).
Proof.
  unfold copies. induction (Z.to_nat n) as [|k IH]; cbn [repeat concat]; [reflexivity|].
  now rewrite IH.
Qed.

Lemma str_mul_glyph (g : pychar) (n : Z) :
  - 2 ^ 63 <= n < 2 ^ 63 -> str_mul [g] n = Ok (repeat g (Z.to_nat n)).
Proof.
  intros H. rewrite str_mul_ok by (exact H || (cbn; lia)). now rewrite copies_glyph.
Qed.

Lemma str_mul_glyph_cases (g n : Z) :
  str_mul [g] n = Ok (repeat g (Z.to_nat n)) \/ str_mul [g] n = Raise OverflowError.
Proof.
  destruct (Z.lt_ge_cases n (- 2 ^ 63)) as [L|L];
    [right; apply str_mul_raise; lia|].
  destruct (Z.lt_ge_cases n (2 ^ 63)) as [U|U];
    [left; apply str_mul_glyph; lia | right; apply str_mul_raise; lia].
Qed.

Lemma ljust_ok (s : pystr) (w : Z) :
  - 2 ^ 63 <= w < 2 ^ 63 -> ljust s w = Ok (pad_right s w).
Proof. intros H. unfold ljust. now rewrite as_ssize_t_ok. Qed.

Lemma format_int_ok n :
  ndigits n <= max_str_digits -> format_int n = Ok (str_of_int n).
Proof.
  intros H. unfold format_int.
  destruct (Z.ltb_spec max_str_digits (ndigits n)); [lia|reflexivity].
Qed.

Lemma format_int_cases n :
  format_int n = Ok (str_of_int n) \/ format_int n = Raise ValueError.
Proof. unfold format_int. destruct (max_str_digits <? ndigits n); auto. Qed.

(** ** Terminal *)

Lemma Terminal_init_is_tty sys_stdout s :
  is_tty (Terminal_init sys_stdout s)
  = isatty (match s with Some st => st | None => sys_stdout end).
Proof. reflexivity. Qed.

Lemma concat_app_empties (l : list pystr) k :
  concat (l ++ repeat [] k) = concat l.
Proof.
  rewrite concat_app.
  assert (E : concat (repeat (@nil pychar) k) = []) by (induction k; auto).
  now rewrite E, app_nil_r.
Qed.

Lemma write_empty_silent t : silent t (write t []).
Proof.
  unfold silent, write, contents; simpl.
  repeat split; auto.
  - now exists 1%nat.
  - apply (concat_app_empties _ 1).
Qed.

Lemma silent_trans a b c : silent a b -> silent b c -> silent a c.
Proof.
  intros (T1 & I1 & (k1 & W1) & C1) (T2 & I2 & (k2 & W2) & C2).
  unfold silent; repeat split; try congruence.
  exists (k1 + k2)%nat.
  now rewrite W2, W1, <- app_assoc, repeat_app.
Qed.

Lemma escape_not_tty t code : _is_tty t = false -> _escape t code = [].
Proof. unfold _escape; now intros ->. Qed.

Lemma write_escape_silent t code :
  _is_tty t = false -> silent t (write t (_escape t code)).
Proof. intros H; rewrite escape_not_tty by exact H; apply write_empty_silent. Qed.

Lemma silent_refl t : silent t t.
Proof.
  unfold silent; repeat split. exists 0%nat. cbn [repeat]. now rewrite app_nil_r.
Qed.

(** An operation that builds its code from an int first: off a TTY the
    terminal after the call is silent, whether the call returned or
    raised. *)
Lemma emit_silent (t : Terminal) (code : result pystr) (k : pystr -> pystr) :
  _is_tty t = false ->
  silent t (fst (bindM (lift code)
                   (fun s => modify (fun self => write self (_escape self (k s)))) t)).
Proof.
  intros H. unfold bindM, lift, modify.
  destruct code as [c|e]; cbn [fst].
  - apply write_escape_silent; exact H.
  - apply silent_refl.
Qed.

Lemma move_silent (t : Terminal) row col :
  _is_tty t = false -> silent t (fst (move row col t)).
Proof.
  intros H. unfold move, bindM, lift, modify.
  destruct (format_int (row + 1)) as [r|e]; [|apply silent_refl].
  destruct (format_int (col + 1)) as [c|e]; [|apply silent_refl].
  cbn [fst]. apply write_escape_silent; exact H.
Qed.

(** C1. On a terminal built on a stream that is not a TTY, each cursor and
    screen operation writes only empty chunks (the text of the stream is
    unchanged after the call, whether it returned or raised), each of
    style, fg, bg, rgb_fg, rgb_bg and reset returns the empty string, and
    colored returns its text as it is, whatever the colours and styles. *)
Theorem C1_no_escape_off_tty :
  forall (sys_stdout : Stream) (s : option Stream),
    is_tty (Terminal_init sys_stdout s) = false ->
    let t := Terminal_init sys_stdout s in
    silent t (fst (clear t)) /\ snd (clear t) = Ok tt /\
    silent t (clear_line t) /\ silent t (clear_to_end t) /\
    (forall row col, silent t (fst (move row col t))) /\
    (forall n, silent t (fst (move_up n t))) /\
    (forall n, silent t (fst (move_down n t))) /\
    (forall n, silent t (fst (move_left n t))) /\
    (forall n, silent t (fst (move_right n t))) /\
    (forall col, silent t (fst (move_to_column col t))) /\
    silent t (save_cursor t) /\ silent t (restore_cursor t) /\
    silent t (hide_cursor t) /\ silent t (show_cursor t) /\
    (forall styles, style t styles = []) /\
    (forall c, fg t c = []) /\
    (forall c, bg t c = Ok []) /\
    (forall r g b, rgb_fg t r g b = Ok []) /\
    (forall r g b, rgb_bg t r g b = Ok []) /\
    reset t = [] /\
    (forall text fg_ bg_ styles, colored t text fg_ bg_ styles = Ok text).
Proof.
  intros sys_stdout s H t.
  assert (Ht : _is_tty t = false) by exact H.
  split.
  { unfold clear, bindM at 1, modify at 1.
    eapply silent_trans; [apply (write_escape_silent t); exact Ht|].
    apply move_silent. exact Ht. }
  split; [reflexivity|].
  repeat match goal with |- _ /\ _ => split end;
    try (intros; apply write_escape_silent; exact Ht);
    try (intros; apply move_silent; exact Ht);
    try (intros; apply (emit_silent t _ (fun s => s ++ _)); exact Ht);
    try (intros; unfold style, fg, bg, rgb_fg, rgb_bg, reset, colored;
         now rewrite Ht).
Qed.

Lemma C1_no_escape_off_tty_witness :
  let out := {| isatty := false; written := [lit "log"] |} in
  let t := Terminal_init out (Some out) in
  silent t (fst (clear t)) /\ colored t (lit "X") (Some RED) (Some BLUE) [BOLD] = Ok (lit "X").
Proof.
  intros out t.
  pose proof (C1_no_escape_off_tty out (Some out) eq_refl) as H.
  split.
  - exact (proj1 H).
  - apply H.
Defined.

Lemma Color_value_code c :
  Color_value c = str_of_int (Color_code c) /\
  int_of_str (Color_value c) = Ok (Color_code c).
Proof. destruct c; split; reflexivity. Qed.

Lemma fg_on_tty t c :
  _is_tty t = true -> fg t c = fg_sequence (Some c).
Proof.
  intros H; unfold fg, fg_sequence; rewrite H; simpl negb; cbv iota.
  now rewrite (proj1 (Color_value_code c)).
Qed.

Lemma format_bg_code c :
  format_int (Color_code c + 10) = Ok (str_of_int (Color_code c + 10)).
Proof. destruct c; reflexivity. Qed.

Lemma bg_on_tty t c :
  _is_tty t = true -> bg t c = Ok (bg_sequence (Some c)).
Proof.
  intros H; unfold bg, bg_sequence; rewrite H; simpl negb; cbv iota.
  rewrite (proj2 (Color_value_code c)). cbn [bind].
  rewrite format_bg_code. reflexivity.
Qed.

(** C2. On a TTY, colored("X", fg=RED) is ESC [ 3 1 m X ESC [ 0 m, and in
    general colored returns the styles sequence, the fg sequence and the bg
    sequence in this order (each one only when supplied), then the text,
    then the reset sequence ESC [ 0 m, whichever parts are present. *)
Theorem C2_colored_on_tty :
  forall (sys_stdout : Stream) (s : option Stream),
    is_tty (Terminal_init sys_stdout s) = true ->
    let t := Terminal_init sys_stdout s in
    colored t [88] (Some RED) None [] = Ok ([27; 91; 51; 49; 109] ++ [88] ++ [27; 91; 48; 109]) /\
    forall text fg_ bg_ styles,
      colored t text fg_ bg_ styles
      = Ok (styles_sequence styles ++ fg_sequence fg_ ++ bg_sequence bg_
            ++ text ++ [27; 91; 48; 109]).
Proof.
  intros sys_stdout s H t.
  assert (Ht : _is_tty t = true) by exact H.
  assert (G : forall text fg_ bg_ styles,
      colored t text fg_ bg_ styles
      = Ok (styles_sequence styles ++ fg_sequence fg_ ++ bg_sequence bg_
            ++ text ++ [27; 91; 48; 109])).
  { intros text fg_ bg_ styles.
    unfold colored. rewrite Ht. simpl negb. cbv iota.
    assert (St : match styles with [] => [] | _ :: _ => [] ++ style t styles end
                 = styles_sequence styles).
    { destruct styles; [reflexivity|]. unfold style; rewrite Ht; reflexivity. }
    rewrite St.
    assert (R : reset t = [27; 91; 48; 109]) by (unfold reset; now rewrite Ht).
    rewrite R.
    destruct fg_ as [c|], bg_ as [c'|]; cbn [bind];
      rewrite ?fg_on_tty, ?bg_on_tty by exact Ht; cbn [bind];
      unfold fg_sequence, bg_sequence;
      rewrite <- ?app_assoc; reflexivity. }
  split; [|exact G].
  rewrite G. reflexivity.
Qed.

Lemma C2_colored_on_tty_witness :
  let out := {| isatty := true; written := [] |} in
  colored (Terminal_init out (Some out)) (lit "hi") (Some GREEN) (Some DEFAULT) [BOLD; UNDERLINE]
  = Ok ([27] ++ lit "[1;4m" ++ [27] ++ lit "[32m" ++ [27] ++ lit "[49m"
        ++ lit "hi" ++ [27] ++ lit "[0m").
Proof.
  intros out.
  rewrite (proj2 (C2_colored_on_tty out (Some out) eq_refl)).
  reflexivity.
Defined.

(** C6. On a TTY, for every colour, fg emits ESC [ n m and bg emits
    ESC [ n+10 m for the same number n, the numeric value of the colour;
    for DEFAULT these are 39 and 49. *)
Theorem C6_bg_is_fg_plus_10 :
  forall (t : Terminal) (c : Color),
    is_tty t = true ->
    exists n,
      int_of_str (Color_value c) = Ok n /\
      fg t c = CSI ++ str_of_int n ++ lit "m" /\
      bg t c = Ok (CSI ++ str_of_int (n + 10) ++ lit "m") /\
      fg t DEFAULT = CSI ++ lit "39m" /\
      bg t DEFAULT = Ok (CSI ++ lit "49m").
Proof.
  intros t c H. exists (Color_code c).
  destruct (Color_value_code c) as [V I].
  split; [exact I|].
  split; [rewrite fg_on_tty by exact H; reflexivity|].
  split; [rewrite bg_on_tty by exact H; reflexivity|].
  split; [rewrite fg_on_tty by exact H; reflexivity|].
  rewrite bg_on_tty by exact H; reflexivity.
Qed.

Lemma C6_bg_is_fg_plus_10_witness :
  let t := {| stream := {| isatty := true; written := [] |}; _is_tty := true |} in
  exists n,
    int_of_str (Color_value BRIGHT_CYAN) = Ok n /\
    fg t BRIGHT_CYAN = CSI ++ str_of_int n ++ lit "m" /\
    bg t BRIGHT_CYAN = Ok (CSI ++ str_of_int (n + 10) ++ lit "m") /\
    fg t DEFAULT = CSI ++ lit "39m" /\
    bg t DEFAULT = Ok (CSI ++ lit "49m").
Proof.
  intros t. apply (C6_bg_is_fg_plus_10 t BRIGHT_CYAN). reflexivity.
Defined.

(** C9. set_title writes ESC ] 0 ; title BEL and bell writes BEL, as one
    chunk each, on every terminal, whatever its is_tty: neither of them
    leaves the text of the stream as it was, as the cursor and screen
    operations do off a TTY. *)
Theorem C9_title_and_bell_always_emit :
  forall (t : Terminal) (title : pystr),
    written (stream (set_title t title))
    = written (stream t) ++ [[27] ++ lit "]0;" ++ title ++ [7]] /\
    written (stream (bell t)) = written (stream t) ++ [[7]] /\
    contents (stream (set_title t title))
    = contents (stream t) ++ [27; 93; 48; 59] ++ title ++ [7] /\
    contents (stream (bell t)) = contents (stream t) ++ [7] /\
    ~ silent t (set_title t title) /\ ~ silent t (bell t).
Proof.
  intros t title.
  split; [reflexivity|].
  split; [reflexivity|].
  split.
  { unfold set_title, write, contents; simpl.
    rewrite concat_app; simpl. now rewrite app_nil_r. }
  split.
  { unfold bell, write, contents; simpl. rewrite concat_app; reflexivity. }
  split.
  - intros (_ & _ & _ & C). unfold set_title, write, contents in C; simpl in C.
    rewrite concat_app in C; simpl in C.
    apply (f_equal (@length pychar)) in C.
    rewrite !length_app in C; simpl in C; lia.
  - intros (_ & _ & _ & C). unfold bell, write, contents in C; simpl in C.
    rewrite concat_app in C; simpl in C.
    apply (f_equal (@length pychar)) in C.
    rewrite length_app in C; simpl in C; lia.
Qed.

(** ** Spinner *)

Lemma last_app_singleton {A} (l : list A) (x d : A) : last (l ++ [x]) d = x.
Proof. apply last_last. Qed.

Lemma FRAMES_index i :
  0 <= i < 10 -> index FRAMES i = Ok (nth (Z.to_nat i) FRAMES []).
Proof.
  intros H.
  assert (C : i = 0 \/ i = 1 \/ i = 2 \/ i = 3 \/ i = 4 \/ i = 5 \/ i = 6
              \/ i = 7 \/ i = 8 \/ i = 9) by lia.
  repeat (destruct C as [-> | C]; [reflexivity|]). subst; reflexivity.
Qed.

Lemma move_up_1 (t : Terminal) :
  move_up 1 t = (write t (_escape t (lit "1A")), Ok tt).
Proof. reflexivity. Qed.

Lemma move_to_column_0 (t : Terminal) :
  move_to_column 0 t = (write t (_escape t (lit "1G")), Ok tt).
Proof. reflexivity. Qed.

Lemma spinner_column_0 (s : Spinner) :
  in_spinner_term (move_to_column 0) s
  = (on_spinner_term (fun t => write t (_escape t (lit "1G"))) s, Ok tt).
Proof. reflexivity. Qed.

Lemma spin_step (s : Spinner) :
  exists s',
    spin s = (s', Ok tt) /\
    _frame s' = _frame s + 1 /\
    message s' = message s /\
    last_written (spinner_term s')
    = nth (Z.to_nat (_frame s mod 10)) FRAMES [] ++ lit " " ++ message s.
Proof.
  unfold spin, bindM, modify, get, lift. rewrite spinner_column_0.
  cbn [on_spinner_term _frame message spinner_term].
  change (Z.of_nat (length FRAMES)) with 10.
  rewrite FRAMES_index by (apply Z.mod_pos_bound; lia).
  eexists; split; [reflexivity|].
  cbn [set_frame on_spinner_term _frame message spinner_term].
  repeat split.
  unfold last_written, write, stream_write; cbn [stream written].
  apply last_app_singleton.
Qed.

Lemma spins_frame (n : nat) (s0 : Spinner) :
  exists s,
    spins n s0 = (s, Ok tt) /\
    _frame s = _frame s0 + Z.of_nat n /\
    message s = message s0 /\
    (forall k, n = S k ->
       last_written (spinner_term s)
       = nth (Z.to_nat ((_frame s0 + Z.of_nat k) mod 10)) FRAMES []
         ++ lit " " ++ message s0).
Proof.
  induction n as [|k IH].
  - exists s0; repeat split; [simpl; lia | discriminate].
  - destruct IH as (s & R & F & Msg & _).
    destruct (spin_step s) as (s' & R' & F' & Msg' & L).
    exists s'. cbn [spins]. unfold bindM at 1. rewrite R, R'.
    repeat split; [lia | congruence |].
    intros k' E. injection E as <-. rewrite L, F, Msg. reflexivity.
Qed.

Lemma nth_spin_chunk_from (s0 : Spinner) (k : nat) :
  nth_spin_chunk (S k) s0
  = Ok (nth (Z.to_nat ((_frame s0 + Z.of_nat k) mod 10)) FRAMES []
        ++ lit " " ++ message s0).
Proof.
  unfold nth_spin_chunk.
  destruct (spins_frame (S k) s0) as (s & R & _ & _ & L).
  rewrite R. f_equal. now apply L.
Qed.

(** C5. On a new Spinner, call number n of spin() writes FRAMES[(n-1) mod 10],
    a space and the message; the counter goes up by one at each call; calls
    1 to 10 write the ten frames in their order and call n+10 writes what
    call n did. ([S k] is the call number, so that it is at least 1.) *)
Theorem C5_spinner_cycles :
  forall (sys_stdout : Stream) (msg : option pystr) (tm : option Terminal),
    let s0 := Spinner_init sys_stdout msg tm in
    (forall k : nat,
        nth_spin_chunk (S k) s0
        = Ok (nth (Nat.modulo k 10) FRAMES [] ++ lit " " ++ message s0)) /\
    (forall k : nat, exists s, spins k s0 = (s, Ok tt) /\ _frame s = Z.of_nat k) /\
    map (fun n => nth_spin_chunk n s0) (seq 1 10)
    = map (fun g => Ok (g ++ lit " " ++ message s0)) FRAMES /\
    length FRAMES = 10%nat /\ NoDup FRAMES /\
    (forall k : nat, nth_spin_chunk (S k + 10) s0 = nth_spin_chunk (S k) s0).
Proof.
  intros sys_stdout msg tm s0.
  assert (G : forall k : nat,
             nth_spin_chunk (S k) s0
             = Ok (nth (Nat.modulo k 10) FRAMES [] ++ lit " " ++ message s0)).
  { intros k. rewrite nth_spin_chunk_from.
    change (_frame s0) with 0. rewrite Z.add_0_l.
    change 10 with (Z.of_nat 10). rewrite <- Nat2Z.inj_mod, Nat2Z.id.
    reflexivity. }
  split; [exact G|].
  split.
  { intros k. destruct (spins_frame k s0) as (s & R & F & _).
    exists s; split; [exact R|]. rewrite F. reflexivity. }
  split.
  { cbn [seq map]. rewrite !G. reflexivity. }
  split; [reflexivity|].
  split.
  { unfold FRAMES. repeat constructor; cbn [In]; intuition discriminate. }
  intros k. change (S k + 10)%nat with (S (k + 10)). rewrite !G.
  replace (Nat.modulo (k + 10) 10) with (Nat.modulo k 10); [reflexivity|].
  rewrite <- (Nat.Div0.add_mod_idemp_r k 10 10).
  rewrite Nat.Div0.mod_same, Nat.add_0_r. reflexivity.
Qed.

(** ** Rounding of doubles *)

Lemma fexp_eq z : fexp prec emax z = Z.max (z - 53) (-1074).
Proof. reflexivity. Qed.

Lemma digits2_pos_size p : digits2_pos p = Pos.size p.
Proof. induction p; cbn; congruence. Qed.

Lemma Zdigits2_log2 m : 0 < m -> Zdigits2 m = Z.log2 m + 1.
Proof.
  destruct m as [|p|p]; try lia. intros _.
  cbn [Zdigits2]. rewrite digits2_pos_size.
  destruct p; cbn [Z.log2 Pos.size]; lia.
Qed.

Lemma Zdigits2_bounds m :
  0 < m -> 2 ^ (Zdigits2 m - 1) <= m < 2 ^ Zdigits2 m.
Proof.
  intros H. rewrite Zdigits2_log2 by exact H.
  replace (Z.log2 m + 1 - 1) with (Z.log2 m) by lia.
  apply Z.log2_spec; exact H.
Qed.

Lemma Zdigits2_le m d : 0 <= m -> 0 <= d -> m < 2 ^ d -> Zdigits2 m <= d.
Proof.
  intros Hm Hd H.
  destruct (Z.eq_dec m 0) as [->|N]; [exact Hd|].
  rewrite Zdigits2_log2 by lia.
  assert (Z.log2 m < d) by (apply Z.log2_lt_pow2; lia). lia.
Qed.

Lemma iter_pos_nat {A} (f : A -> A) p x :
  iter_pos f p x = Nat.iter (Pos.to_nat p) f x.
Proof.
  revert x; induction p as [p IH|p IH|]; intros x; cbn [iter_pos].
  - rewrite !IH, Pos2Nat.inj_xI.
    change (f x) with (Nat.iter 1 f x).
    rewrite <- !Nat.iter_add. f_equal; lia.
  - rewrite !IH, Pos2Nat.inj_xO, <- Nat.iter_add. f_equal; lia.
  - reflexivity.
Qed.

Lemma shr_1_nonneg m r s :
  0 <= m ->
  shr_1 (Build_shr_record m r s) = Build_shr_record (m / 2) (Z.odd m) (r || s).
Proof.
  intros H. destruct m as [|p|p]; [reflexivity| |lia].
  destruct p; cbn [shr_1]; f_equal; try reflexivity.
  - rewrite Pos2Z.inj_xI. apply Z.div_unique with 1; lia.
  - rewrite Pos2Z.inj_xO. apply Z.div_unique with 0; lia.
Qed.

Lemma shr_iter_m k m r s :
  0 <= m ->
  shr_m (Nat.iter k shr_1 (Build_shr_record m r s)) = m / 2 ^ Z.of_nat k.
Proof.
  intros H. induction k as [|k IH].
  - cbn. now rewrite Z.div_1_r.
  - rewrite Nat.iter_succ.
    destruct (Nat.iter k shr_1 (Build_shr_record m r s)) as [m' r' s'].
    cbn [shr_m] in IH.
    assert (0 <= m') by (rewrite IH; apply Z.div_pos; [lia | apply Z.pow_pos_nonneg; lia]).
    rewrite shr_1_nonneg by assumption. cbn [shr_m].
    rewrite IH, Nat2Z.inj_succ, Z.pow_succ_r by lia.
    rewrite Z.div_div by (try apply Z.pow_pos_nonneg; lia).
    f_equal; lia.
Qed.

Lemma shr_iter_exact k m :
  0 <= m -> m mod 2 ^ Z.of_nat k = 0 ->
  Nat.iter k shr_1 (Build_shr_record m false false)
  = Build_shr_record (m / 2 ^ Z.of_nat k) false false.
Proof.
  intros H. induction k as [|k IH]; intros D.
  - cbn. now rewrite Z.div_1_r.
  - rewrite Nat.iter_succ.
    rewrite Nat2Z.inj_succ, Z.pow_succ_r in D by lia.
    assert (P : 0 < 2 ^ Z.of_nat k) by (apply Z.pow_pos_nonneg; lia).
    assert (D' : m mod 2 ^ Z.of_nat k = 0).
    { apply Z.mod_divide in D; [|lia]. apply Z.mod_divide; [lia|].
      destruct D as [q D]. exists (q * 2). lia. }
    rewrite IH by exact D'.
    assert (0 <= m / 2 ^ Z.of_nat k) by (apply Z.div_pos; lia).
    rewrite shr_1_nonneg by assumption.
    rewrite Nat2Z.inj_succ, Z.pow_succ_r by lia.
    rewrite Z.div_div by lia.
    replace (2 ^ Z.of_nat k * 2) with (2 * 2 ^ Z.of_nat k) by lia.
    f_equal.
    apply Z.mod_divide in D; [|lia]. destruct D as [q D].
    rewrite D. replace (q * (2 * 2 ^ Z.of_nat k)) with ((q * 2) * 2 ^ Z.of_nat k) by lia.
    rewrite Z.div_mul by lia. rewrite Z.odd_mul. cbn. apply andb_false_r.
Qed.

Lemma loc_of_record_of_loc m l :
  loc_of_shr_record (shr_record_of_loc m l) = l.
Proof. destruct l as [|[]]; reflexivity. Qed.

Lemma shr_m_record_of_loc m l : shr_m (shr_record_of_loc m l) = m.
Proof. destruct l as [|[]]; reflexivity. Qed.

Lemma round_nearest_even_bounds m l :
  m <= round_nearest_even m l <= m + 1.
Proof. destruct l as [|[]]; cbn [round_nearest_even]; try destruct (Z.even m); lia. Qed.

(** The first shift of [binary_round_aux]. *)
Lemma shr_fexp_spec m e l :
  0 <= m ->
  let e1 := Z.max e (fexp prec emax (Zdigits2 m + e)) in
  exists mrs,
    shr_fexp prec emax m e l = (mrs, e1) /\
    shr_m mrs = m / 2 ^ (e1 - e) /\
    (l = loc_Exact -> m mod 2 ^ (e1 - e) = 0 -> loc_of_shr_record mrs = loc_Exact).
Proof.
  intros Hm e1. unfold shr_fexp, shr.
  destruct (fexp prec emax (Zdigits2 m + e) - e) as [|p|p] eqn:En.
  - exists (shr_record_of_loc m l).
    replace e1 with e by (unfold e1; lia).
    rewrite Z.sub_diag, Z.div_1_r, shr_m_record_of_loc, loc_of_record_of_loc.
    repeat split; auto.
  - exists (iter_pos shr_1 p (shr_record_of_loc m l)).
    replace e1 with (e + Z.pos p) by (unfold e1; lia).
    replace (e + Z.pos p - e) with (Z.of_nat (Pos.to_nat p)) by lia.
    rewrite iter_pos_nat.
    repeat split.
    + destruct l as [|[]]; cbn [shr_record_of_loc]; apply shr_iter_m; exact Hm.
    + intros -> D. cbn [shr_record_of_loc].
      rewrite shr_iter_exact by assumption. reflexivity.
  - exists (shr_record_of_loc m l).
    replace e1 with e by (unfold e1; lia).
    rewrite Z.sub_diag, Z.div_1_r, shr_m_record_of_loc, loc_of_record_of_loc.
    repeat split; auto.
Qed.

Lemma binary_round_aux_spec s m e l :
  0 <= m ->
  let e1 := Z.max e (fexp prec emax (Zdigits2 m + e)) in
  let m1 := m / 2 ^ (e1 - e) in
  exists m2,
    m1 <= m2 <= m1 + 1 /\
    (l = loc_Exact -> m mod 2 ^ (e1 - e) = 0 -> m2 = m1) /\
    m2 <= 2 ^ 53 /\
    binary_round_aux prec emax s m e l
    = if m2 =? 0 then S754_zero s
      else if m2 <? 2 ^ 53
           then (if e1 <=? 971 then S754_finite s (Z.to_pos m2) e1
                 else S754_infinity s)
           else (if e1 + 1 <=? 971 then S754_finite s (Z.to_pos (2 ^ 52)) (e1 + 1)
                 else S754_infinity s).
Proof.
  intros Hm e1 m1.
  destruct (shr_fexp_spec m e l Hm) as (mrs & S1 & M1 & X1).
  fold e1 in S1, M1, X1. fold m1 in M1.
  assert (He1 : -1074 <= e1 /\ e <= e1 /\ Zdigits2 m + e - 53 <= e1).
  { unfold e1. rewrite fexp_eq. lia. }
  assert (P0 : 0 < 2 ^ (e1 - e)) by (apply Z.pow_pos_nonneg; lia).
  assert (Hm1 : 0 <= m1 < 2 ^ 53).
  { split; [apply Z.div_pos; lia|].
    apply Z.div_lt_upper_bound; [lia|].
    destruct (Z.eq_dec m 0) as [->|N]; [lia|].
    pose proof (Zdigits2_bounds m ltac:(lia)) as [_ B].
    eapply Z.lt_le_trans; [exact B|].
    rewrite <- Z.pow_add_r by lia.
    apply Z.pow_le_mono_r; lia. }
  set (m2 := round_nearest_even m1 (loc_of_shr_record mrs)).
  pose proof (round_nearest_even_bounds m1 (loc_of_shr_record mrs)) as B2.
  fold m2 in B2.
  exists m2.
  split; [exact B2|].
  split.
  { intros El D. unfold m2. rewrite (X1 El D). reflexivity. }
  split; [lia|].
  unfold binary_round_aux. rewrite S1, M1. fold m2.
  destruct (Z.eqb_spec m2 0) as [Z2|NZ2].
  { rewrite Z2. unfold shr_fexp, shr. cbn [Zdigits2].
    rewrite Z.add_0_l, fexp_eq.
    destruct (Z.max (e1 - 53) (-1074) - e1) eqn:En; try lia; reflexivity. }
  destruct (Z.ltb_spec m2 (2 ^ 53)) as [L|G].
  - assert (D2 : Zdigits2 m2 <= 53) by (apply Zdigits2_le; lia).
    unfold shr_fexp, shr. rewrite fexp_eq.
    destruct (Z.max (Zdigits2 m2 + e1 - 53) (-1074) - e1) eqn:En; try lia;
      cbn [shr_record_of_loc shr_m fst snd];
      (destruct m2 as [|p2|p2]; [lia | | lia]); reflexivity.
  - assert (E2 : m2 = 2 ^ 53) by lia.
    rewrite E2. unfold shr_fexp, shr.
    change (Zdigits2 (2 ^ 53)) with 54. rewrite fexp_eq.
    replace (Z.max (54 + e1 - 53) (-1074) - e1) with 1 by lia.
    reflexivity.
Qed.

Lemma pow2_pos n : 0 <= n -> 0 < 2 ^ n.
Proof. intros; apply Z.pow_pos_nonneg; lia. Qed.

Lemma pow2_split a b : 0 <= a -> 0 <= b -> 2 ^ (a + b) = 2 ^ a * 2 ^ b.
Proof. intros; apply Z.pow_add_r; assumption. Qed.

(** [Z.max 0 e] and [Z.max 0 (- e)] once the sign of [e] is known: one of
    the two is [e] or [- e], and the other power of two is 1. *)
Ltac scale_at e :=
  first [ rewrite (Z.max_l 0 e), (Z.max_r 0 (- e)) by lia
        | rewrite (Z.max_r 0 e), (Z.max_l 0 (- e)) by lia ];
  change (2 ^ 0) with 1.

Ltac scale_in e H :=
  first [ rewrite (Z.max_l 0 e), (Z.max_r 0 (- e)) in H by lia
        | rewrite (Z.max_r 0 e), (Z.max_l 0 (- e)) in H by lia ];
  change (2 ^ 0) with 1 in H.

(** Rounding does not go above an integer that the exact value does not
    exceed. *)
Lemma binary_round_aux_le m e l W :
  0 <= m -> 0 <= W ->
  e <= 0 -> Zdigits2 m + e <= 53 ->
  m <= W * 2 ^ (- e) ->
  (m = W * 2 ^ (- e) -> l = loc_Exact) ->
  float_le_int (binary_round_aux prec emax false m e l) W.
Proof.
  intros Hm HW He Hd Hle Hex.
  destruct (binary_round_aux_spec false m e l Hm) as (m2 & B2 & X2 & U2 & R).
  set (e1 := Z.max e (fexp prec emax (Zdigits2 m + e))) in *.
  assert (He1 : e <= e1 <= 0) by (unfold e1; rewrite fexp_eq; lia).
  set (n := e1 - e) in *.
  assert (Pn : 0 < 2 ^ n) by (apply pow2_pos; lia).
  assert (Pe1 : 0 < 2 ^ (- e1)) by (apply pow2_pos; lia).
  assert (Sp : 2 ^ (- e) = 2 ^ (- e1) * 2 ^ n).
  { rewrite <- pow2_split by lia. f_equal; lia. }
  set (K := W * 2 ^ (- e1)).
  assert (HK : W * 2 ^ (- e) = K * 2 ^ n) by (unfold K; rewrite Sp; ring).
  assert (M1 : m / 2 ^ n <= K).
  { apply Z.div_le_upper_bound; [exact Pn|]. rewrite Z.mul_comm. lia. }
  assert (M2 : m2 <= K).
  { destruct (Z.eq_dec (m / 2 ^ n) K) as [E|N]; [|lia].
    assert (Em : m = K * 2 ^ n).
    { pose proof (Z.mul_div_le m (2 ^ n) Pn). rewrite E in H. lia. }
    rewrite X2; [lia | apply Hex; lia |].
    rewrite Em. apply Z.mod_mul. lia. }
  rewrite R.
  destruct (Z.eqb_spec m2 0) as [Z2|NZ2]; [cbn; exact HW|].
  assert (0 <= m / 2 ^ n) by (apply Z.div_pos; lia).
  destruct (Z.ltb_spec m2 (2 ^ 53)) as [L|G].
  - destruct (Z.leb_spec e1 971); [|lia].
    cbn [float_le_int]. rewrite Z2Pos.id by lia.
    rewrite !Z.max_l by lia. rewrite Z.max_r by lia.
    change (2 ^ 0) with 1. unfold K in M2. lia.
  - destruct (Z.leb_spec (e1 + 1) 971); [|lia].
    cbn [float_le_int]. rewrite Z2Pos.id by lia.
    assert (E2 : m2 = 2 ^ 53) by lia.
    destruct (Z.eq_dec e1 0) as [E0|N0].
    + replace (Z.max 0 (e1 + 1)) with 1 by lia.
      replace (Z.max 0 (- (e1 + 1))) with 0 by lia.
      unfold K in M2. replace (- e1) with 0 in M2 by lia.
      change (2 ^ 0) with 1 in *. change (2 ^ 1) with 2.
      change (2 ^ 53) with (2 ^ 52 * 2) in E2. lia.
    + rewrite (Z.max_l 0 (e1 + 1)) by lia. rewrite Z.max_r by lia.
      change (2 ^ 0) with 1.
      assert (S1 : 2 ^ (- e1) = 2 * 2 ^ (- (e1 + 1))).
      { rewrite <- Z.pow_succ_r by lia. f_equal; lia. }
      unfold K in M2. rewrite S1 in M2. change (2 ^ 53) with (2 * 2 ^ 52) in E2. lia.
Qed.

(** Rounding does not go below an integer (itself a double) that the exact
    value reaches. *)
Lemma binary_round_aux_ge m e l W :
  0 <= m -> 0 < W <= 2 ^ 53 ->
  Zdigits2 m + e <= 900 ->
  W * 2 ^ Z.max 0 (- e) <= m * 2 ^ Z.max 0 e ->
  float_ge_int (binary_round_aux prec emax false m e l) W.
Proof.
  intros Hm HW Hd Hge.
  assert (Pa : 0 < 2 ^ Z.max 0 (- e)) by (apply pow2_pos; lia).
  assert (Pb : 0 < 2 ^ Z.max 0 e) by (apply pow2_pos; lia).
  assert (Hm' : 0 < m) by nia.
  pose proof (Zdigits2_bounds m Hm') as [Dlo Dhi].
  assert (D1 : 1 <= Zdigits2 m).
  { destruct m; cbn in *; lia. }
  destruct (binary_round_aux_spec false m e l Hm) as (m2 & B2 & _ & U2 & R).
  set (e1 := Z.max e (fexp prec emax (Zdigits2 m + e))) in *.
  assert (He1 : e <= e1 /\ e1 <= 899 /\
                (e1 = e \/ (e < e1 /\ e1 = Zdigits2 m + e - 53) \/ e1 = -1074)).
  { unfold e1; rewrite fexp_eq; lia. }
  set (n := e1 - e) in *.
  assert (Pn : 0 < 2 ^ n) by (apply pow2_pos; lia).
  assert (M1 : 0 <= m / 2 ^ n) by (apply Z.div_pos; lia).
  (* the rounded value, on the grid of [e1], reaches [W] *)
  assert (V : W * 2 ^ Z.max 0 (- e1) <= m2 * 2 ^ Z.max 0 e1).
  { destruct (Z.le_gt_cases e1 0) as [Le|Gt].
    - rewrite (Z.max_r 0 (- e1)), (Z.max_l 0 e1) by lia.
      rewrite (Z.max_r 0 (- e)), (Z.max_l 0 e) in Hge by lia.
      change (2 ^ 0) with 1 in *.
      assert (Sp : 2 ^ (- e) = 2 ^ (- e1) * 2 ^ n).
      { rewrite <- pow2_split by lia. f_equal; lia. }
      assert (W * 2 ^ (- e1) <= m / 2 ^ n).
      { apply Z.div_le_lower_bound; [exact Pn|]. rewrite Sp in Hge. lia. }
      lia.
    - rewrite (Z.max_l 0 (- e1)), (Z.max_r 0 e1) by lia.
      change (2 ^ 0) with 1.
      assert (P1 : 2 <= 2 ^ e1).
      { change 2 with (2 ^ 1) at 1. apply Z.pow_le_mono_r; lia. }
      destruct (Z.eq_dec e1 e) as [E|N].
      + replace n with 0 in * by lia. rewrite Z.div_1_r in *.
        rewrite (Z.max_l 0 (- e)), (Z.max_r 0 e) in Hge by lia.
        change (2 ^ 0) with 1 in Hge. rewrite E in *. nia.
      + assert (En : n = Zdigits2 m - 53) by lia.
        assert (2 ^ 52 <= m / 2 ^ n).
        { apply Z.div_le_lower_bound; [exact Pn|].
          rewrite <- pow2_split by lia.
          replace (n + 52) with (Zdigits2 m - 1) by lia. exact Dlo. }
        change (2 ^ 53) with (2 ^ 52 * 2) in HW. nia. }
  assert (NZ : 0 < m2).
  { assert (0 < 2 ^ Z.max 0 (- e1)) by (apply pow2_pos; lia).
    assert (0 < 2 ^ Z.max 0 e1) by (apply pow2_pos; lia). nia. }
  rewrite R.
  destruct (Z.eqb_spec m2 0) as [Z2|NZ2]; [lia|].
  destruct (Z.ltb_spec m2 (2 ^ 53)) as [L|G].
  - destruct (Z.leb_spec e1 971); [|lia].
    cbn [float_ge_int]. rewrite Z2Pos.id by lia. exact V.
  - destruct (Z.leb_spec (e1 + 1) 971); [|lia].
    cbn [float_ge_int]. rewrite Z2Pos.id by lia.
    assert (E2 : m2 = 2 ^ 52 * 2) by (change (2 ^ 52 * 2) with (2 ^ 53); lia).
    rewrite E2 in V.
    destruct (Z.le_gt_cases 0 e1) as [Ge|Lt].
    + rewrite (Z.max_l 0 (- (e1 + 1))), (Z.max_r 0 (e1 + 1)) by lia.
      rewrite (pow2_split e1 1) by lia. change (2 ^ 1) with 2.
      change (2 ^ 0) with 1.
      destruct (Z.eq_dec e1 0) as [E0|N0].
      * replace (Z.max 0 (- e1)) with 0 in V by lia.
        replace (Z.max 0 e1) with e1 in V by lia. lia.
      * rewrite (Z.max_l 0 (- e1)), (Z.max_r 0 e1) in V by lia. lia.
    + rewrite (Z.max_r 0 (- (e1 + 1))), (Z.max_l 0 (e1 + 1)) by lia.
      rewrite (Z.max_r 0 (- e1)), (Z.max_l 0 e1) in V by lia.
      replace (- e1) with (Z.succ (- (e1 + 1))) in V by lia.
      rewrite Z.pow_succ_r in V by lia.
      change (2 ^ 0) with 1 in *. lia.
Qed.

Lemma new_location_exact b r : new_location b r = loc_Exact <-> r = 0.
Proof.
  unfold new_location, new_location_even, new_location_odd.
  destruct (Z.even b); destruct (Z.eqb_spec r 0); split; intros H;
    try reflexivity; try assumption; try discriminate; contradiction.
Qed.

(** The quotient that [int_truediv] rounds. *)
Lemma SFdiv_core_spec a b :
  0 < a -> 0 < b ->
  let e' := Z.min (fexp prec emax (Zdigits2 a - Zdigits2 b)) 0 in
  exists l,
    SFdiv_core_binary prec emax a 0 b 0 = ((a * 2 ^ (- e')) / b, e', l) /\
    (l = loc_Exact <-> (a * 2 ^ (- e')) mod b = 0).
Proof.
  intros Ha Hb e'.
  unfold SFdiv_core_binary.
  rewrite !Z.add_0_r, Z.sub_diag.
  fold e'. rewrite Z.sub_0_l.
  assert (He : e' <= 0) by (unfold e'; lia).
  set (m' := match - e' with
             | 0 => a
             | Z.pos _ => Z.shiftl a (- e')
             | Z.neg _ => 0
             end).
  assert (Em : m' = a * 2 ^ (- e')).
  { unfold m'. destruct (- e') eqn:E; [change (2 ^ 0) with 1; lia| |lia].
    rewrite Z.shiftl_mul_pow2 by lia. reflexivity. }
  unfold Z.div, Z.modulo. rewrite <- Em.
  destruct (Z.div_eucl m' b) as [q r].
  exists (new_location b r). split; [reflexivity|].
  apply new_location_exact.
Qed.

Lemma float_le_int_nonneg x W : float_le_int x W -> nonneg_float x.
Proof. destruct x as [[]| | |[] ? ?]; cbn; tauto. Qed.

Lemma float_ge_int_nonneg x W : float_ge_int x W -> nonneg_float x.
Proof. destruct x as [[]| | |[] ? ?]; cbn; tauto. Qed.

(** [a / b] on positive ints: the rounding of a quotient scaled by a
    power of two. *)
Lemma int_truediv_positive a b :
  0 < a -> 0 < b ->
  exists e' l,
    e' <= 0 /\
    (l = loc_Exact <-> (a * 2 ^ (- e')) mod b = 0) /\
    int_truediv a b
    = match binary_round_aux prec emax false (a * 2 ^ (- e') / b) e' l with
      | S754_infinity _ => Raise OverflowError
      | f => Ok f
      end.
Proof.
  intros Ha Hb.
  unfold int_truediv.
  destruct (Z.eqb_spec b 0); [lia|].
  destruct (Z.eqb_spec a 0); [lia|].
  replace (a <? 0) with false by (symmetry; apply Z.ltb_ge; lia).
  replace (b <? 0) with false by (symmetry; apply Z.ltb_ge; lia).
  cbn [xorb]. rewrite !Z.abs_eq by lia.
  destruct (SFdiv_core_spec a b Ha Hb) as (l & C & X).
  rewrite C.
  exists (Z.min (fexp prec emax (Zdigits2 a - Zdigits2 b)) 0), l.
  split; [lia|]. split; [exact X | reflexivity].
Qed.

Lemma int_truediv_le_1 a b :
  0 <= a <= b -> 0 < b ->
  exists x, int_truediv a b = Ok x /\ float_le_int x 1.
Proof.
  intros H Hb.
  destruct (Z.eq_dec a 0) as [->|NZ].
  { exists (S754_zero false). split; [|cbn; lia].
    unfold int_truediv.
    destruct (Z.eqb_spec b 0); [lia|].
    replace (b <? 0) with false by (symmetry; apply Z.ltb_ge; lia).
    reflexivity. }
  destruct (int_truediv_positive a b) as (e' & l & He & X & ->); try lia.
  assert (Ps : 0 < 2 ^ (- e')) by (apply pow2_pos; lia).
  set (q := a * 2 ^ (- e') / b) in *.
  assert (Hq : 0 <= q <= 2 ^ (- e')).
  { split; [apply Z.div_pos; nia|].
    apply Z.div_le_upper_bound; nia. }
  assert (B : float_le_int (binary_round_aux prec emax false q e' l) 1).
  { apply binary_round_aux_le; try lia.
    - assert (Zdigits2 q <= - e' + 1); [|lia].
      apply Zdigits2_le; try lia.
      rewrite pow2_split by lia. change (2 ^ 1) with 2. lia.
    - intros E. apply X.
      assert (Eab : a = b).
      { pose proof (Z.mul_div_le (a * 2 ^ (- e')) b ltac:(lia)) as M.
        fold q in M. nia. }
      rewrite Eab, Z.mul_comm. apply Z.mod_mul. lia. }
  destruct (binary_round_aux prec emax false q e' l) as [[]|[]| |[] m e] eqn:R;
    cbn in B; try contradiction; eexists; (split; [reflexivity|]); cbn; exact B.
Qed.

Lemma int_truediv_ge_1 a b :
  0 < b <= a -> a < 2 ^ 53 * b ->
  exists x, int_truediv a b = Ok x /\ float_ge_int x 1 /\ float_le_int x (2 ^ 53).
Proof.
  intros H Ha.
  destruct (int_truediv_positive a b) as (e' & l & He & X & ->); try lia.
  assert (Ps : 0 < 2 ^ (- e')) by (apply pow2_pos; lia).
  set (q := a * 2 ^ (- e') / b) in *.
  assert (Hq : 2 ^ (- e') <= q < 2 ^ 53 * 2 ^ (- e')).
  { split.
    - apply Z.div_le_lower_bound; nia.
    - apply Z.div_lt_upper_bound; nia. }
  assert (Dq : Zdigits2 q + e' <= 53).
  { assert (Zdigits2 q <= 53 + - e'); [|lia].
    apply Zdigits2_le; try lia.
    rewrite pow2_split by lia. nia. }
  assert (G : float_ge_int (binary_round_aux prec emax false q e' l) 1).
  { apply binary_round_aux_ge; try lia.
    scale_at e'. lia. }
  assert (B : float_le_int (binary_round_aux prec emax false q e' l) (2 ^ 53)).
  { apply binary_round_aux_le; lia. }
  destruct (binary_round_aux prec emax false q e' l) as [[]|[]| |[] m e] eqn:R;
    cbn in G; try contradiction.
  eexists; split; [reflexivity|]. split; [exact G | exact B].
Qed.

(** [a / b] does not go above an int, itself a double, that the exact
    quotient does not exceed. *)
Lemma int_truediv_le a b W :
  0 < a -> 0 < b -> 0 < W < 2 ^ 53 -> a <= W * b ->
  exists x, int_truediv a b = Ok x /\ float_le_int x W.
Proof.
  intros Ha Hb HW H.
  destruct (int_truediv_positive a b) as (e' & l & He & X & ->); try lia.
  assert (Ps : 0 < 2 ^ (- e')) by (apply pow2_pos; lia).
  set (q := a * 2 ^ (- e') / b) in *.
  assert (Hq : 0 <= q <= W * 2 ^ (- e')).
  { split; [apply Z.div_pos; nia|].
    apply Z.div_le_upper_bound; nia. }
  assert (B : float_le_int (binary_round_aux prec emax false q e' l) W).
  { apply binary_round_aux_le; try lia.
    - assert (Zdigits2 q <= 53 + - e'); [|lia].
      apply Zdigits2_le; try lia.
      rewrite pow2_split by lia. nia.
    - intros E. apply X.
      assert (Eab : a = W * b).
      { pose proof (Z.mul_div_le (a * 2 ^ (- e')) b ltac:(lia)) as M.
        fold q in M. nia. }
      rewrite Eab.
      replace (W * b * 2 ^ (- e')) with (W * 2 ^ (- e') * b) by ring.
      apply Z.mod_mul. lia. }
  destruct (binary_round_aux prec emax false q e' l) as [[]|[]| |[] m e] eqn:R;
    cbn in B; try contradiction; eexists; (split; [reflexivity|]); cbn; exact B.
Qed.

Lemma pow2_scaled_le mf ef k D :
  0 <= mf <= 2 ^ k -> 0 <= k -> k + ef <= D -> 0 <= D ->
  mf * 2 ^ Z.max 0 ef <= 2 ^ D * 2 ^ Z.max 0 (- ef).
Proof.
  intros Hm Hk Hs HD.
  destruct (Z.le_gt_cases 0 ef) as [P|N].
  - scale_at ef.
    assert (0 < 2 ^ ef) by (apply pow2_pos; lia).
    assert (2 ^ k * 2 ^ ef <= 2 ^ D).
    { rewrite <- pow2_split by lia. apply Z.pow_le_mono_r; lia. }
    nia.
  - scale_at ef.
    assert (2 ^ k <= 2 ^ D * 2 ^ (- ef)).
    { rewrite <- pow2_split by lia. apply Z.pow_le_mono_r; lia. }
    lia.
Qed.

(** Rounding does not go above the power of two that bounds the exact
    value by its number of digits. *)
Lemma binary_round_aux_le_pow2 m e l D :
  0 <= m -> Zdigits2 m + e <= D -> 0 <= D <= 900 ->
  float_le_int (binary_round_aux prec emax false m e l) (2 ^ D).
Proof.
  intros Hm Hd HD.
  destruct (binary_round_aux_spec false m e l Hm) as (m2 & B2 & _ & U2 & R).
  set (e1 := Z.max e (fexp prec emax (Zdigits2 m + e))) in *.
  assert (D0 : 0 <= Zdigits2 m).
  { destruct m as [|p|p]; [cbn; lia | | lia].
    pose proof (Zdigits2_log2 (Z.pos p) ltac:(lia)).
    pose proof (Z.log2_nonneg (Z.pos p)). lia. }
  assert (He1 : e <= e1 /\ e1 <= D) by (unfold e1; rewrite fexp_eq; lia).
  set (n := e1 - e) in *.
  assert (Pn : 0 < 2 ^ n) by (apply pow2_pos; lia).
  set (k := Z.max 0 (Zdigits2 m - n)).
  assert (M1 : 0 <= m / 2 ^ n) by (apply Z.div_pos; lia).
  assert (M2 : m2 <= 2 ^ k).
  { assert (m / 2 ^ n < 2 ^ k); [|lia].
    apply Z.div_lt_upper_bound; [exact Pn|].
    destruct (Z.eq_dec m 0) as [->|NZ].
    { assert (0 < 2 ^ k) by (apply pow2_pos; unfold k; lia). nia. }
    pose proof (Zdigits2_bounds m ltac:(lia)) as [_ B].
    eapply Z.lt_le_trans; [exact B|].
    rewrite <- pow2_split by (unfold k; lia).
    apply Z.pow_le_mono_r; unfold k; lia. }
  assert (PD : 0 < 2 ^ D) by (apply pow2_pos; lia).
  rewrite R.
  destruct (Z.eqb_spec m2 0) as [Z2|NZ2]; [cbn; lia|].
  destruct (Z.ltb_spec m2 (2 ^ 53)) as [L|G].
  - destruct (Z.leb_spec e1 971); [|lia].
    cbn [float_le_int]. rewrite Z2Pos.id by lia.
    apply (pow2_scaled_le m2 e1 k D);
      [split; [lia | exact M2] | unfold k; lia | unfold k, n; lia | lia].
  - destruct (Z.leb_spec (e1 + 1) 971); [|lia].
    cbn [float_le_int]. rewrite Z2Pos.id by lia.
    assert (K53 : 53 <= k).
    { apply (Z.pow_le_mono_r_iff 2); [lia | unfold k; lia | lia]. }
    apply (pow2_scaled_le (2 ^ 52) (e1 + 1) (k - 1) D);
      [split; [lia | apply Z.pow_le_mono_r; lia] | lia | unfold k, n in *; lia | lia].
Qed.

Lemma Pos_iter_xO p n : Z.pos (Pos.iter xO p n) = Z.pos p * 2 ^ Z.pos n.
Proof.
  induction n as [|n IH] using Pos.peano_ind.
  - cbn [Pos.iter]. lia.
  - rewrite Pos.iter_succ, Pos2Z.inj_xO, IH, Pos2Z.inj_succ, Z.pow_succ_r by lia.
    ring.
Qed.

Lemma Zdigits2_mul_pow2 m k :
  0 < m -> 0 <= k -> Zdigits2 (m * 2 ^ k) = Zdigits2 m + k.
Proof.
  intros Hm Hk.
  assert (0 < 2 ^ k) by (apply pow2_pos; lia).
  rewrite !Zdigits2_log2 by nia.
  rewrite Z.log2_mul_pow2 by lia. lia.
Qed.

(** A double of 53 digits comes out of the rounding as it went in. *)
Lemma binary_round_aux_canonical s m e :
  Zdigits2 (Z.pos m) = 53 -> -1074 <= e <= 971 ->
  binary_round_aux prec emax s (Z.pos m) e loc_Exact = S754_finite s m e.
Proof.
  intros D He.
  destruct (binary_round_aux_spec s (Z.pos m) e loc_Exact ltac:(lia))
    as (m2 & _ & X2 & _ & R).
  rewrite D, fexp_eq in *.
  replace (Z.max e (Z.max (53 + e - 53) (-1074))) with e in * by lia.
  rewrite Z.sub_diag, Z.div_1_r in *.
  rewrite X2 in R by (try apply Z.mod_1_r; reflexivity).
  rewrite R.
  destruct (Z.eqb_spec (Z.pos m) 0); [lia|].
  pose proof (Zdigits2_bounds (Z.pos m) ltac:(lia)) as [_ B]. rewrite D in B.
  destruct (Z.ltb_spec (Z.pos m) (2 ^ 53)); [|lia].
  destruct (Z.leb_spec e 971); [|lia].
  reflexivity.
Qed.

Lemma float_of_int_small W :
  0 < W < 2 ^ 53 ->
  exists m e,
    float_of_int W = Ok (S754_finite false m e) /\
    e <= 0 /\ Z.pos m = W * 2 ^ (- e) /\ Zdigits2 (Z.pos m) = 53.
Proof.
  intros H. destruct W as [|p|p]; try lia.
  unfold float_of_int, binary_normalize, binary_round, shl_align.
  fold (Zdigits2 (Z.pos p)).
  pose proof (Zdigits2_le (Z.pos p) 53 ltac:(lia) ltac:(lia) ltac:(lia)) as D.
  assert (D1 : 1 <= Zdigits2 (Z.pos p)) by (cbn; lia).
  rewrite Z.add_0_r, fexp_eq, Z.sub_0_r.
  replace (Z.max (Zdigits2 (Z.pos p) - 53) (-1074)) with (Zdigits2 (Z.pos p) - 53) by lia.
  destruct (Zdigits2 (Z.pos p) - 53) as [|k|k] eqn:E; [|lia|].
  - rewrite binary_round_aux_canonical by lia.
    exists p, 0. repeat split; [lia | cbn; lia | lia].
  - assert (Dk : Zdigits2 (Z.pos (Pos.iter xO p k)) = 53).
    { rewrite Pos_iter_xO, Zdigits2_mul_pow2 by lia. lia. }
    rewrite <- E. rewrite binary_round_aux_canonical by lia.
    exists (Pos.iter xO p k), (Zdigits2 (Z.pos p) - 53).
    split; [reflexivity|]. split; [lia|].
    split; [|exact Dk].
    rewrite Pos_iter_xO. f_equal. f_equal. lia.
Qed.

(** The product of a double that is the integer [W] and a double [p]. *)
Lemma SFmul_core_le W mw ew mp ep :
  0 < W -> ew <= 0 -> Z.pos mw = W * 2 ^ (- ew) -> Zdigits2 (Z.pos mw) = 53 ->
  float_le_int (S754_finite false mp ep) 1 ->
  float_le_int
    (binary_round_aux prec emax false (Z.pos (mw * mp)) (ew + ep) loc_Exact) W.
Proof.
  intros HW Hew Emw Dmw Hp. cbn [float_le_int] in Hp.
  assert (Hep : ep <= 0).
  { destruct (Z.le_gt_cases ep 0) as [|G]; [assumption|].
    rewrite (Z.max_r 0 ep), (Z.max_l 0 (- ep)) in Hp by lia.
    assert (2 <= 2 ^ ep).
    { change 2 with (2 ^ 1) at 1. apply Z.pow_le_mono_r; lia. }
    change (2 ^ 0) with 1 in Hp. nia. }
  scale_in ep Hp.
  assert (Pp : 0 < 2 ^ (- ep)) by (apply pow2_pos; lia).
  assert (Pw : 0 < 2 ^ (- ew)) by (apply pow2_pos; lia).
  pose proof (Zdigits2_bounds (Z.pos mw) ltac:(lia)) as [_ Bw]. rewrite Dmw in Bw.
  assert (Sp : 2 ^ (- (ew + ep)) = 2 ^ (- ew) * 2 ^ (- ep)).
  { rewrite <- pow2_split by lia. f_equal; lia. }
  rewrite Pos2Z.inj_mul.
  apply binary_round_aux_le; try lia.
  - assert (Zdigits2 (Z.pos mw * Z.pos mp) <= 53 + - ep); [|lia].
    apply Zdigits2_le; try lia.
    rewrite pow2_split by lia. nia.
  - rewrite Sp. nia.
  - reflexivity.
Qed.

Lemma float_le_int_digits mp ep N :
  0 <= N -> float_le_int (S754_finite false mp ep) (2 ^ N) ->
  Zdigits2 (Z.pos mp) + ep <= N + 1.
Proof.
  intros HN H. cbn [float_le_int] in H.
  pose proof (Zdigits2_bounds (Z.pos mp) ltac:(lia)) as [Lo _].
  assert (D1 : 1 <= Zdigits2 (Z.pos mp)) by (cbn; lia).
  rewrite <- !pow2_split in H by lia.
  destruct (Z.le_gt_cases (Zdigits2 (Z.pos mp) + ep) (N + 1)) as [|G]; [assumption|].
  exfalso.
  assert (P : 2 ^ (N + Z.max 0 (- ep) + 1) <= 2 ^ (Zdigits2 (Z.pos mp) - 1 + Z.max 0 ep)).
  { apply Z.pow_le_mono_r; lia. }
  rewrite (pow2_split (Zdigits2 (Z.pos mp) - 1)) in P by lia.
  rewrite (pow2_split (N + Z.max 0 (- ep)) 1) in P by lia.
  change (2 ^ 1) with 2 in P.
  assert (0 < 2 ^ Z.max 0 ep) by (apply pow2_pos; lia).
  assert (0 < 2 ^ (N + Z.max 0 (- ep))) by (apply pow2_pos; lia).
  nia.
Qed.

(** The digits that a bound leaves to a double. *)
Lemma float_le_int_digits_lt mp ep W N :
  0 <= N -> float_le_int (S754_finite false mp ep) W -> W < 2 ^ N ->
  Zdigits2 (Z.pos mp) + ep <= N.
Proof.
  intros HN H HW. cbn [float_le_int] in H.
  pose proof (Zdigits2_bounds (Z.pos mp) ltac:(lia)) as [Lo _].
  assert (D1 : 1 <= Zdigits2 (Z.pos mp)) by (cbn; lia).
  destruct (Z.le_gt_cases (Zdigits2 (Z.pos mp) + ep) N) as [|G]; [assumption|].
  exfalso.
  assert (P1 : 0 < 2 ^ Z.max 0 ep) by (apply pow2_pos; lia).
  assert (P2 : 0 < 2 ^ Z.max 0 (- ep)) by (apply pow2_pos; lia).
  assert (P : 2 ^ (N + Z.max 0 (- ep)) <= 2 ^ (Zdigits2 (Z.pos mp) - 1 + Z.max 0 ep)).
  { apply Z.pow_le_mono_r; lia. }
  rewrite (pow2_split (Zdigits2 (Z.pos mp) - 1)) in P by lia.
  rewrite (pow2_split N) in P by lia.
  nia.
Qed.

(** The product of a double that is the integer [W] and a double [p],
    bounded by their digits. *)
Lemma SFmul_core_le_pow2 W mw ew mp ep Nw Np :
  0 < W < 2 ^ Nw -> 0 <= Nw -> 0 <= Nw + Np <= 900 ->
  ew <= 0 -> Z.pos mw = W * 2 ^ (- ew) -> Zdigits2 (Z.pos mw) = 53 ->
  Zdigits2 (Z.pos mp) + ep <= Np ->
  float_le_int
    (binary_round_aux prec emax false (Z.pos (mw * mp)) (ew + ep) loc_Exact)
    (2 ^ (Nw + Np)).
Proof.
  intros HW HNw HN Hew Emw Dmw Dp.
  assert (Pw : 0 < 2 ^ (- ew)) by (apply pow2_pos; lia).
  pose proof (Zdigits2_bounds (Z.pos mw) ltac:(lia)) as [Lw Bw]. rewrite Dmw in Lw, Bw.
  pose proof (Zdigits2_bounds (Z.pos mp) ltac:(lia)) as [_ Bp].
  assert (D1 : 1 <= Zdigits2 (Z.pos mp)) by (cbn; lia).
  assert (Dw : 53 + ew <= Nw).
  { destruct (Z.le_gt_cases (53 + ew) Nw) as [|G]; [assumption|]. exfalso.
    assert (2 ^ (Nw + - ew) <= 2 ^ (53 - 1)) by (apply Z.pow_le_mono_r; lia).
    rewrite pow2_split in H by lia. nia. }
  rewrite Pos2Z.inj_mul.
  apply binary_round_aux_le_pow2; try lia.
  assert (Zdigits2 (Z.pos mw * Z.pos mp) <= 53 + Zdigits2 (Z.pos mp)); [|lia].
  apply Zdigits2_le; try lia.
  rewrite pow2_split by lia.
  assert (0 < 2 ^ Zdigits2 (Z.pos mp)) by (apply pow2_pos; lia). nia.
Qed.

Lemma SFmul_core_ge W mw ew mp ep :
  0 < W < 2 ^ 53 -> ew <= 0 -> Z.pos mw = W * 2 ^ (- ew) ->
  Zdigits2 (Z.pos mw) = 53 ->
  float_ge_int (S754_finite false mp ep) 1 ->
  float_le_int (S754_finite false mp ep) (2 ^ 53) ->
  float_ge_int
    (binary_round_aux prec emax false (Z.pos (mw * mp)) (ew + ep) loc_Exact) W.
Proof.
  intros HW Hew Emw Dmw Hp Hu.
  pose proof (float_le_int_digits mp ep 53 ltac:(lia) Hu) as Dp.
  cbn [float_ge_int] in Hp.
  assert (Pw : 0 < 2 ^ (- ew)) by (apply pow2_pos; lia).
  pose proof (Zdigits2_bounds (Z.pos mw) ltac:(lia)) as [_ Bw]. rewrite Dmw in Bw.
  pose proof (Zdigits2_bounds (Z.pos mp) ltac:(lia)) as [_ Bp].
  assert (D1 : 1 <= Zdigits2 (Z.pos mp)) by (cbn; lia).
  rewrite Pos2Z.inj_mul.
  apply binary_round_aux_ge; try lia.
  - assert (Zdigits2 (Z.pos mw * Z.pos mp) <= 53 + Zdigits2 (Z.pos mp)); [|lia].
    apply Zdigits2_le; try lia.
    rewrite pow2_split by lia.
    assert (0 < 2 ^ Zdigits2 (Z.pos mp)) by (apply pow2_pos; lia). nia.
  - destruct (Z.le_gt_cases ep 0) as [Le|Gt].
    + scale_in ep Hp.
      scale_at (ew + ep).
      replace (- (ew + ep)) with (- ew + - ep) by lia.
      rewrite pow2_split by lia.
      assert (0 < 2 ^ (- ep)) by (apply pow2_pos; lia). nia.
    + destruct (Z.le_gt_cases (ew + ep) 0) as [Le'|Gt'].
      * scale_at (ew + ep).
        assert (2 ^ (- (ew + ep)) <= 2 ^ (- ew)) by (apply Z.pow_le_mono_r; lia).
        nia.
      * scale_at (ew + ep).
        assert (0 < 2 ^ (ew + ep)) by (apply pow2_pos; lia).
        assert (W <= Z.pos mw) by nia.
        assert (Z.pos mw <= Z.pos mw * Z.pos mp) by nia.
        assert (Z.pos mw * Z.pos mp <= Z.pos mw * Z.pos mp * 2 ^ (ew + ep)) by nia.
        lia.
Qed.

(** [int * float] and [float * int] as [update] computes them. *)
Lemma int_mul_float_le W p :
  0 <= W < 2 ^ 53 -> float_le_int p 1 ->
  exists x, int_mul_num W (Float p) = Ok (Float x) /\ float_le_int x W.
Proof.
  intros HW Hp. unfold int_mul_num.
  destruct (Z.eq_dec W 0) as [->|NZ].
  - change (float_of_int 0) with (Ok (S754_zero false)). cbn [bind].
    destruct p as [[]| | |[] mp ep]; cbn in Hp; try contradiction;
      eexists; (split; [reflexivity|]); cbn; lia.
  - destruct (float_of_int_small W ltac:(lia)) as (mw & ew & F & Hew & Emw & Dmw).
    rewrite F. cbn [bind].
    eexists; split; [reflexivity|].
    destruct p as [[]| | |[] mp ep]; cbn in Hp; try contradiction.
    + cbn. lia.
    + cbn [SFmul xorb]. apply SFmul_core_le; try assumption; lia.
Qed.

Lemma float_mul_int_le p W :
  0 < W < 2 ^ 53 -> float_le_int p 1 ->
  exists x, num_mul_int (Float p) W = Ok (Float x) /\ float_le_int x W.
Proof.
  intros HW Hp. unfold num_mul_int.
  destruct (float_of_int_small W ltac:(lia)) as (mw & ew & F & Hew & Emw & Dmw).
  rewrite F. cbn [bind].
  eexists; split; [reflexivity|].
  destruct p as [[]| | |[] mp ep]; cbn in Hp; try contradiction.
  - cbn. lia.
  - cbn [SFmul xorb]. rewrite Pos.mul_comm, Z.add_comm.
    apply SFmul_core_le; try assumption; lia.
Qed.

Lemma int_mul_float_ge W p :
  0 < W < 2 ^ 53 -> float_ge_int p 1 -> float_le_int p (2 ^ 53) ->
  exists x, int_mul_num W (Float p) = Ok (Float x) /\ float_ge_int x W.
Proof.
  intros HW Hp Hu. unfold int_mul_num.
  destruct (float_of_int_small W ltac:(lia)) as (mw & ew & F & Hew & Emw & Dmw).
  rewrite F. cbn [bind].
  eexists; split; [reflexivity|].
  destruct p as [[]| | |[] mp ep]; cbn in Hp; try contradiction.
  cbn [SFmul xorb]. apply SFmul_core_ge; assumption.
Qed.

Lemma float_mul_int_ge p W :
  0 < W < 2 ^ 53 -> float_ge_int p 1 -> float_le_int p (2 ^ 53) ->
  exists x, num_mul_int (Float p) W = Ok (Float x) /\ float_ge_int x W.
Proof.
  intros HW Hp Hu. unfold num_mul_int.
  destruct (float_of_int_small W ltac:(lia)) as (mw & ew & F & Hew & Emw & Dmw).
  rewrite F. cbn [bind].
  eexists; split; [reflexivity|].
  destruct p as [[]| | |[] mp ep]; cbn in Hp; try contradiction.
  cbn [SFmul xorb]. rewrite Pos.mul_comm, Z.add_comm.
  apply SFmul_core_ge; assumption.
Qed.

(** [int * float] stays below the product of two powers of two that
    bound its operands. *)
Lemma int_mul_float_le_pow2 W p B Nw Np :
  0 < W < 2 ^ Nw -> 0 <= Nw <= 53 -> 0 <= Np -> Nw + Np <= 900 ->
  float_ge_int p 1 -> float_le_int p B -> B < 2 ^ Np ->
  exists x, int_mul_num W (Float p) = Ok (Float x) /\ float_le_int x (2 ^ (Nw + Np)).
Proof.
  intros HW HNw HNp HN Hp Hu HB. unfold int_mul_num.
  assert (W53 : 2 ^ Nw <= 2 ^ 53) by (apply Z.pow_le_mono_r; lia).
  destruct (float_of_int_small W ltac:(lia)) as (mw & ew & F & Hew & Emw & Dmw).
  rewrite F. cbn [bind].
  eexists; split; [reflexivity|].
  destruct p as [[]| | |[] mp ep]; cbn in Hp; try contradiction.
  cbn [SFmul xorb].
  apply (SFmul_core_le_pow2 W); try assumption; try lia.
  apply (float_le_int_digits_lt mp ep B); assumption || lia.
Qed.

Lemma float_le_int_mono x W W' : float_le_int x W -> W <= W' -> float_le_int x W'.
Proof.
  destruct x as [[]| | |[] m e]; cbn; try tauto; try lia.
  intros H L.
  assert (0 < 2 ^ Z.max 0 (- e)) by (apply pow2_pos; lia). nia.
Qed.

Lemma int_of_float_le x W :
  float_le_int x W -> exists F, int_of_float x = Ok F /\ 0 <= F <= W.
Proof.
  destruct x as [[]| | |[] m e]; cbn [float_le_int]; try tauto; intros H.
  - exists 0. split; [reflexivity | lia].
  - cbn [int_of_float]. eexists; split; [reflexivity|].
    destruct (Z.leb_spec 0 e) as [Le|Gt].
    + scale_in e H.
      assert (0 < 2 ^ e) by (apply pow2_pos; lia). nia.
    + scale_in e H.
      assert (0 < 2 ^ (- e)) by (apply pow2_pos; lia).
      split; [apply Z.div_pos; lia|].
      apply Z.div_le_upper_bound; lia.
Qed.

Lemma int_of_float_ge x W :
  float_ge_int x W -> exists F, int_of_float x = Ok F /\ W <= F.
Proof.
  destruct x as [[]| | |[] m e]; cbn [float_ge_int]; try tauto; intros H.
  cbn [int_of_float]. eexists; split; [reflexivity|].
  destruct (Z.leb_spec 0 e) as [Le|Gt].
  - scale_in e H. lia.
  - scale_in e H.
    assert (0 < 2 ^ (- e)) by (apply pow2_pos; lia).
    apply Z.div_le_lower_bound; lia.
Qed.

Lemma float_tenths_le x :
  float_le_int x 100 -> 0 <= float_tenths x <= 1000.
Proof.
  destruct x as [[]| | |[] m e]; cbn [float_le_int float_tenths]; try tauto;
    try lia.
  intros H. unfold tenths.
  destruct (Z.leb_spec 0 e) as [Le|Gt].
  - scale_in e H.
    assert (0 < 2 ^ e) by (apply pow2_pos; lia). nia.
  - scale_in e H.
    assert (P : 0 < 2 ^ (- e)) by (apply pow2_pos; lia).
    cbn zeta.
    set (d := 2 ^ (- e)) in *.
    pose proof (Z.div_mod (10 * Z.pos m) d ltac:(lia)) as DM.
    pose proof (Z.mod_pos_bound (10 * Z.pos m) d P) as MB.
    assert (Q0 : 0 <= 10 * Z.pos m / d) by (apply Z.div_pos; lia).
    assert (Q1 : 10 * Z.pos m / d <= 1000) by (apply Z.div_le_upper_bound; lia).
    destruct (2 * ((10 * Z.pos m) mod d) ?= d) eqn:C.
    + apply Z.compare_eq in C.
      destruct (Z.even (10 * Z.pos m / d)); [lia|]. nia.
    + lia.
    + apply Z.compare_gt_iff in C. nia.
Qed.

Lemma float_tenths_ge x :
  float_ge_int x 100 -> 1000 <= float_tenths x.
Proof.
  destruct x as [[]| | |[] m e]; cbn [float_ge_int float_tenths]; try tauto.
  intros H. unfold tenths.
  destruct (Z.leb_spec 0 e) as [Le|Gt].
  - scale_in e H. lia.
  - scale_in e H.
    assert (P : 0 < 2 ^ (- e)) by (apply pow2_pos; lia).
    cbn zeta.
    assert (Q1 : 1000 <= 10 * Z.pos m / 2 ^ (- e)) by (apply Z.div_le_lower_bound; lia).
    destruct (2 * ((10 * Z.pos m) mod 2 ^ (- e)) ?= 2 ^ (- e));
      try destruct (Z.even (10 * Z.pos m / 2 ^ (- e))); lia.
Qed.

Lemma format_nonneg x :
  nonneg_float x -> format_5_1f x = rjust (str_of_tenths (float_tenths x)) 5.
Proof.
  destruct x as [[]| | |[] m e]; cbn [nonneg_float]; try tauto; reflexivity.
Qed.

Lemma shown_length T :
  0 <= T <= 1000 -> len (rjust (str_of_tenths T) 5) = 5.
Proof.
  intros H.
  assert (A : forallb (fun n => len (rjust (str_of_tenths (Z.of_nat n)) 5) =? 5)
                      (seq 0 1001) = true) by (vm_compute; reflexivity).
  rewrite forallb_forall in A.
  specialize (A (Z.to_nat T)).
  rewrite Z2Nat.id in A by lia.
  apply Z.eqb_eq, A, in_seq. lia.
Qed.

(** ** ProgressBar *)

(** C7. finish(message) is update(total, message) on every bar and for
    every message: the same bar afterwards (so the same stream) and the same
    outcome; without a message, finish passes "Done!". *)
Theorem C7_finish_is_update_total :
  forall (b : ProgressBar) (msg : pystr),
    finish (Some msg) b = update (Some (total b)) msg b /\
    finish None b = update (Some (total b)) (lit "Done!") b.
Proof. intros b msg; split; reflexivity. Qed.

Lemma bar_move_up_1 (b : ProgressBar) :
  in_term (move_up 1) b
  = (on_term (fun t => write t (_escape t (lit "1A"))) b, Ok tt).
Proof. reflexivity. Qed.

Lemma last_written_writeln t line :
  last_written (writeln t line) = line ++ [10].
Proof.
  unfold last_written, writeln, write, stream_write; cbn [stream written].
  apply last_app_singleton.
Qed.

Lemma update_unfold current_ message_ self :
  update current_ message_ self
  = let self' := redrawn current_ self in
    match (if total self >? 0
           then q <- int_truediv (current self') (total self) ;; Ok (Float q)
           else Ok (Int 0)) with
    | Raise e => (self', Raise e)
    | Ok pct =>
        match (p <- int_mul_num (width self) pct ;; int_of_num p) with
        | Raise e => (self', Raise e)
        | Ok filled =>
            match (done <- str_mul FILLED filled ;;
                   todo <- str_mul UNFILLED (width self - filled) ;;
                   Ok (done ++ todo)) with
            | Raise e => (self', Raise e)
            | Ok bar =>
                match (p <- num_mul_int pct 100 ;; format_num_5_1f p) with
                | Raise e => (self', Raise e)
                | Ok shown =>
                    (on_term (fun t =>
                                writeln t (lit "[" ++ bar ++ lit "] " ++ shown
                                           ++ lit "%" ++ message_suffix message_)) self',
                     Ok tt)
                end
            end
        end
    end.
Proof.
  unfold update, bindM, get, modify, lift, ret, redrawn.
  destruct self as [tot wid tm cur st]; cbn [total width term current _started
    set_current set_started on_term].
  destruct st; rewrite ?bar_move_up_1;
    cbn [total width term current _started set_current set_started on_term];
    (destruct (if tot >? 0 then _ else _) as [pct|e]; [|reflexivity]);
    (destruct (bind (int_mul_num wid pct) _) as [filled|e]; [|reflexivity]);
    (destruct (bind (str_mul FILLED filled) _) as [bar|e]; [|reflexivity]);
    (destruct (bind (num_mul_int pct 100) _) as [shown|e]; [|reflexivity]);
    destruct message_; cbn [message_suffix]; rewrite <- ?app_assoc, ?app_nil_r;
    reflexivity.
Qed.

(** The bar of [update] when both counts are an [ssize_t]. *)
Lemma bar_ok (F W : Z) :
  - 2 ^ 63 <= F < 2 ^ 63 -> - 2 ^ 63 <= W - F < 2 ^ 63 ->
  (done <- str_mul FILLED F ;; todo <- str_mul UNFILLED (W - F) ;; Ok (done ++ todo))
  = Ok (repeat 9608 (Z.to_nat F) ++ repeat 9617 (Z.to_nat (W - F))).
Proof.
  intros HF HW. unfold FILLED, UNFILLED.
  rewrite !str_mul_glyph by assumption. reflexivity.
Qed.




(** ** Box *)

Section SplitJoin.
Variable c : pychar.

Lemma split_nonempty s : split c s <> [].
Proof.
  destruct s as [|x s]; cbn [split]; [discriminate|].
  destruct (x =? c); [discriminate|].
  destruct (split c s); discriminate.
Qed.

Lemma split_pieces_free s : Forall (fun p => ~ In c p) (split c s).
Proof.
  induction s as [|x s IH]; cbn [split].
  - repeat constructor; auto.
  - destruct (Z.eqb_spec x c) as [E|N].
    + constructor; auto.
    + pose proof (split_nonempty s) as NE.
      destruct (split c s) as [|p ps]; [congruence|].
      inversion IH; subst.
      constructor; auto.
      intros [E|I]; [congruence | contradiction].
Qed.

Lemma split_free p : ~ In c p -> split c p = [p].
Proof.
  induction p as [|x p IH]; intros H; cbn [split]; [reflexivity|].
  destruct (Z.eqb_spec x c) as [E|N].
  - exfalso; apply H; left; exact E.
  - rewrite IH by (intros I; apply H; right; exact I). reflexivity.
Qed.

Lemma split_app_sep p rest :
  ~ In c p -> split c (p ++ c :: rest) = p :: split c rest.
Proof.
  induction p as [|x p IH]; intros H; cbn [split app].
  - now rewrite Z.eqb_refl.
  - destruct (Z.eqb_spec x c) as [E|N].
    + exfalso; apply H; left; exact E.
    + rewrite IH by (intros I; apply H; right; exact I). reflexivity.
Qed.

(** Splitting gives back the parts that were joined, when no part holds
    the separator. *)
Lemma split_join parts :
  parts <> [] -> Forall (fun p => ~ In c p) parts ->
  split c (join [c] parts) = parts.
Proof.
  induction parts as [|p ps IH]; intros NE F; [congruence|].
  inversion F as [|? ? Hp Hps]; subst.
  destruct ps as [|p' ps].
  - cbn [join]. now apply split_free.
  - change (join [c] (p :: p' :: ps)) with (p ++ c :: join [c] (p' :: ps)).
    rewrite split_app_sep by exact Hp.
    rewrite IH; [reflexivity | discriminate | exact Hps].
Qed.

End SplitJoin.

Lemma fold_left_append {A B} (f : A -> B) (l : list A) (init : list B) :
  fold_left (fun acc x => acc ++ [f x]) l init = init ++ map f l.
Proof.
  revert init; induction l as [|x l IH]; intros init; cbn [fold_left map].
  - now rewrite app_nil_r.
  - rewrite IH, <- app_assoc. reflexivity.
Qed.

Lemma fold_left_max_spec (l : list Z) (x : Z) :
  let m := fold_left Z.max l x in
  Forall (fun y => y <= m) (x :: l) /\ Exists (fun y => y = m) (x :: l).
Proof.
  revert x; induction l as [|y l IH]; intros x; cbn [fold_left].
  - split; [repeat constructor; lia | now left].
  - destruct (IH (Z.max x y)) as [F E]. cbn zeta in *.
    inversion F as [|? ? F1 F2]; subst.
    split.
    + constructor; [lia|]. constructor; [lia | exact F2].
    + inversion E as [? ? E1|? ? E2]; subst.
      * destruct (Z.max_spec x y) as [[_ M]|[_ M]].
        -- right; left. congruence.
        -- left. congruence.
      * right; right; exact E2.
Qed.

Lemma copies_free (g : pystr) (n : Z) (c : pychar) :
  ~ In c g -> ~ In c (copies g n).
Proof.
  intros H. unfold copies. induction (Z.to_nat n) as [|k IH]; cbn [repeat concat].
  - intros [].
  - rewrite in_app_iff. tauto.
Qed.

Lemma pad_right_free (s : pystr) (w : Z) : ~ In NL s -> ~ In NL (pad_right s w).
Proof.
  intros H. unfold pad_right. rewrite in_app_iff. intros [I|I]; [tauto|].
  apply repeat_spec in I. discriminate.
Qed.

Lemma STYLES_get_cases style_ :
  let g := dict_get STYLES style_ STYLES_single in
  g = single_glyphs \/ g = double_glyphs \/ g = rounded_glyphs \/ g = heavy_glyphs.
Proof.
  cbn zeta. unfold STYLES. cbn [dict_get].
  repeat match goal with
         | |- context [if ?b then _ else _] => destruct b; [tauto|]
         end.
  left; reflexivity.
Qed.

Lemma str_eqb_eq a b : str_eqb a b = true <-> a = b.
Proof.
  revert b; induction a as [|x a IH]; intros [|y b]; cbn [str_eqb];
    try (split; [discriminate | congruence]); [tauto|].
  rewrite andb_true_iff, Z.eqb_eq, IH. split; [intros [-> ->] | intros E; injection E]; auto.
Qed.

Lemma dict_get_missing {V} (d : list (pystr * V)) key default :
  ~ In key (map fst d) -> dict_get d key default = default.
Proof.
  induction d as [|[k v] d IH]; intros H; cbn [dict_get]; [reflexivity|].
  destruct (str_eqb k key) eqn:E.
  - apply str_eqb_eq in E. exfalso; apply H; left; exact E.
  - apply IH. intros I; apply H; right; exact I.
Qed.

Lemma glyphs_of_style style_ tl tr bl br h v :
  dict_get STYLES style_ STYLES_single = (tl, tr, bl, br, h, v) ->
  (length tl = 1 /\ length tr = 1 /\ length bl = 1 /\ length br = 1
   /\ length h = 1 /\ length v = 1)%nat /\
  Forall (fun g => Forall (fun c => 9472 <= c <= 9584) g) [tl; tr; bl; br; h; v].
Proof.
  intros G. pose proof (STYLES_get_cases style_) as GC. cbn zeta in GC.
  rewrite G in GC.
  destruct GC as [E|[E|[E|E]]]; injection E as -> -> -> -> -> ->;
    (split; [repeat split | repeat constructor; lia]).
Qed.

Lemma fold_left_rows (v : pystr) (w : Z) (lines init : list pystr) :
  - 2 ^ 63 <= w < 2 ^ 63 ->
  fold_left (fun acc line =>
               result_ <- acc ;;
               padded <- ljust line w ;;
               Ok (result_ ++ [v ++ padded ++ v]))
            lines (Ok init)
  = Ok (init ++ map (fun line => v ++ pad_right line w ++ v) lines).
Proof.
  intros H. revert init; induction lines as [|x l IH]; intros init; cbn [fold_left map].
  - now rewrite app_nil_r.
  - cbn [bind]. rewrite ljust_ok by exact H. cbn [bind].
    rewrite IH, <- app_assoc. reflexivity.
Qed.

(** The lines of a box, and when there is a box: the width inside the
    borders has to be an [ssize_t]. *)
Lemma draw_lines sys_stdout content width_ style_ term_ :
  let lines := split NL content in
  exists max_len tl tr bl br h v,
    Forall (fun line => len line <= max_len) lines /\
    Exists (fun line => len line = max_len) lines /\
    dict_get STYLES style_ STYLES_single = (tl, tr, bl, br, h, v) /\
    let inner_width := box_width width_ max_len - 2 in
    let parts :=
      (tl ++ copies h inner_width ++ tr)
        :: map (fun line => v ++ pad_right line inner_width ++ v) lines
        ++ [bl ++ copies h inner_width ++ br] in
    (- 2 ^ 63 <= inner_width < 2 ^ 63 ->
     draw sys_stdout content width_ style_ term_ = Ok (join [NL] parts)) /\
    (inner_width < - 2 ^ 63 \/ 2 ^ 63 <= inner_width ->
     draw sys_stdout content width_ style_ term_ = Raise OverflowError) /\
    split NL (join [NL] parts) = parts.
Proof.
  intros lines.
  pose proof (split_nonempty NL content) as NE.
  pose proof (split_pieces_free NL content) as FR.
  fold lines in NE, FR.
  unfold draw. fold lines.
  destruct (dict_get STYLES style_ STYLES_single) as [[[[[tl tr] bl] br] h] v] eqn:G.
  destruct (glyphs_of_style _ _ _ _ _ _ _ G) as [(_ & _ & _ & _ & Lh & _) GF].
  assert (NG : forall g, In g [tl; tr; bl; br; h; v] -> ~ In NL g).
  { intros g I N. rewrite Forall_forall in GF. specialize (GF g I).
    rewrite Forall_forall in GF. specialize (GF NL N). unfold NL in GF. lia. }
  destruct (map len lines) as [|x l] eqn:ML.
  { destruct lines; [congruence | discriminate]. }
  cbn [py_max bind].
  destruct (fold_left_max_spec l x) as [MF ME]. cbn zeta in MF, ME.
  set (max_len := fold_left Z.max l x) in *.
  rewrite <- ML in MF, ME.
  exists max_len, tl, tr, bl, br, h, v.
  split; [rewrite Forall_map in MF; exact MF|].
  split; [rewrite Exists_map in ME; exact ME|].
  split; [reflexivity|].
  cbn zeta. fold (box_width width_ max_len).
  set (inner_width := box_width width_ max_len - 2).
  split.
  { intros R.
    rewrite str_mul_ok by (exact R || (unfold len; rewrite Lh; lia)).
    cbn [bind]. rewrite fold_left_rows by exact R. cbn [bind app].
    reflexivity. }
  split.
  { intros R. rewrite str_mul_raise by exact R. reflexivity. }
  apply split_join; [discriminate|].
  constructor; [|apply Forall_app; split].
  - rewrite !in_app_iff.
    pose proof (copies_free h inner_width NL (NG h ltac:(cbn; tauto))).
    pose proof (NG tl ltac:(cbn; tauto)). pose proof (NG tr ltac:(cbn; tauto)). tauto.
  - apply Forall_map. eapply Forall_impl; [|exact FR].
    intros line Hl. cbn beta. rewrite !in_app_iff.
    pose proof (pad_right_free line inner_width Hl).
    pose proof (NG v ltac:(cbn; tauto)). tauto.
  - repeat constructor. rewrite !in_app_iff.
    pose proof (copies_free h inner_width NL (NG h ltac:(cbn; tauto))).
    pose proof (NG bl ltac:(cbn; tauto)). pose proof (NG br ltac:(cbn; tauto)). tauto.
Qed.

Lemma len_app (a b : pystr) : len (a ++ b) = len a + len b.
Proof. unfold len. rewrite length_app. lia. Qed.

Lemma len_copies_glyph (g : pystr) (n : Z) :
  length g = 1%nat -> len (copies g n) = Z.max 0 n.
Proof.
  intros H. destruct g as [|c [|? ?]]; try discriminate.
  rewrite copies_glyph. unfold len. rewrite repeat_length. lia.
Qed.

Lemma len_pad_right (s : pystr) (w : Z) : len (pad_right s w) = Z.max (len s) w.
Proof.
  unfold pad_right. rewrite len_app. unfold len at 2. rewrite repeat_length.
  unfold len. lia.
Qed.

Lemma len_glyph (g : pystr) : length g = 1%nat -> len g = 1.
Proof. unfold len. intros ->. reflexivity. Qed.




(** *** A bar within its total *)

Lemma update_some_cases (b : ProgressBar) (cur : Z) (msg : pystr) (F : Z) (shown : pystr) :
  0 < total b ->
  (q <- int_truediv cur (total b) ;;
   p <- int_mul_num (width b) (Float q) ;; int_of_num p) = Ok F ->
  (q <- int_truediv cur (total b) ;;
   p <- num_mul_int (Float q) 100 ;; format_num_5_1f p) = Ok shown ->
  - 2 ^ 63 <= F < 2 ^ 63 -> - 2 ^ 63 <= width b - F < 2 ^ 63 ->
  exists b',
    update (Some cur) msg b = (b', Ok tt) /\
    last_written (term b')
    = lit "[" ++ (repeat 9608 (Z.to_nat F) ++ repeat 9617 (Z.to_nat (width b - F)))
      ++ lit "] " ++ shown ++ lit "%" ++ message_suffix msg ++ [10] /\
    current b' = cur /\ total b' = total b /\ width b' = width b /\
    _started b' = true.
Proof.
  intros Ht HF HS RF RW.
  rewrite update_unfold. cbn zeta.
  replace (total b >? 0) with true by (symmetry; apply Z.gtb_lt; exact Ht).
  cbn [redrawn current].
  destruct (int_truediv cur (total b)) as [q|e]; [|discriminate].
  cbn [bind] in *. rewrite HF, HS, bar_ok by assumption.
  eexists; split; [reflexivity|].
  cbn [on_term term current total width _started].
  rewrite last_written_writeln, <- !app_assoc.
  repeat split.
Qed.

(** C3, as the code has it. On a bar with total > 0, 0 <= width < 2^53 and
    0 <= current <= total, update(current, message) does not raise and
    writes "[<bar>] <pct>%", then a space and the message when the message is
    not empty, then a newline. <bar> is exactly width characters: F filled
    glyphs followed by width - F unfilled ones, where F is
    int(width * (current / total)) as doubles compute it, 0 <= F <= width,
    and F = width when current = total. <pct> is the double
    (current / total) * 100 to one decimal, T tenths with 0 <= T <= 1000,
    right-aligned in 5 characters. With total = 10 and width = 40, update(5)
    writes 20 filled glyphs, 20 unfilled ones and " 50.0%". *)
Theorem C3_update_within_total :
  forall (b : ProgressBar) (cur : Z) (msg : pystr),
    0 < total b -> 0 <= width b < 2 ^ 53 -> 0 <= cur <= total b ->
    exists b' F T,
      update (Some cur) msg b = (b', Ok tt) /\
      (q <- int_truediv cur (total b) ;;
       p <- int_mul_num (width b) (Float q) ;; int_of_num p) = Ok F /\
      (q <- int_truediv cur (total b) ;;
       p <- num_mul_int (Float q) 100 ;; format_num_5_1f p)
      = Ok (rjust (str_of_tenths T) 5) /\
      0 <= F <= width b /\ 0 <= T <= 1000 /\
      let bar := repeat 9608 (Z.to_nat F) ++ repeat 9617 (Z.to_nat (width b - F)) in
      last_written (term b')
      = lit "[" ++ bar ++ lit "] " ++ rjust (str_of_tenths T) 5 ++ lit "%"
        ++ message_suffix msg ++ [10] /\
      len bar = width b /\
      len (rjust (str_of_tenths T) 5) = 5 /\
      (cur = total b -> F = width b /\ T = 1000) /\
      current b' = cur /\ _started b' = true /\
      (forall (sys_stdout : Stream) (tm : option Terminal),
          exists b10,
            update (Some 5) [] (ProgressBar_init sys_stdout 10 None tm) = (b10, Ok tt) /\
            last_written (term b10)
            = lit "[" ++ repeat 9608 20 ++ repeat 9617 20 ++ lit "] "
              ++ lit " 50.0" ++ lit "%" ++ [10]).
Proof.
  intros b cur msg Ht Hw Hc.
  destruct (int_truediv_le_1 cur (total b) Hc Ht) as (q & Q & Lq).
  destruct (int_mul_float_le (width b) q Hw Lq) as (x & X & Lx).
  destruct (int_of_float_le x (width b) Lx) as (F & IF & BF).
  destruct (float_mul_int_le q 100 ltac:(lia) Lq) as (y & Y & Ly).
  pose proof (float_tenths_le y Ly) as BT.
  set (T := float_tenths y) in *.
  assert (HF : (q <- int_truediv cur (total b) ;;
                p <- int_mul_num (width b) (Float q) ;; int_of_num p) = Ok F).
  { rewrite Q. cbn [bind]. rewrite X. cbn [bind int_of_num]. exact IF. }
  assert (HS : (q <- int_truediv cur (total b) ;;
                p <- num_mul_int (Float q) 100 ;; format_num_5_1f p)
               = Ok (rjust (str_of_tenths T) 5)).
  { rewrite Q. cbn [bind]. rewrite Y. cbn [bind format_num_5_1f].
    rewrite format_nonneg by (eapply float_le_int_nonneg; exact Ly). reflexivity. }
  destruct (update_some_cases b cur msg F _ Ht HF HS ltac:(lia) ltac:(lia))
    as (b' & U & L & C & _ & _ & S).
  exists b', F, T.
  split; [exact U|]. split; [exact HF|]. split; [exact HS|].
  split; [exact BF|]. split; [exact BT|].
  cbn zeta.
  split.
  { rewrite L. reflexivity. }
  split.
  { unfold len. rewrite length_app, !repeat_length. lia. }
  split; [apply shown_length; exact BT|].
  split.
  { intros E.
    destruct (int_truediv_ge_1 cur (total b) ltac:(lia) ltac:(lia)) as (q' & Q' & Gq & _).
    assert (q' = q) by congruence. subst q'.
    pose proof (float_le_int_mono q 1 (2 ^ 53) Lq ltac:(lia)) as Uq.
    split.
    - destruct (Z.eq_dec (width b) 0) as [W0|WN]; [lia|].
      destruct (int_mul_float_ge (width b) q ltac:(lia) Gq Uq) as (x' & X' & Gx).
      assert (x' = x) by congruence. subst x'.
      destruct (int_of_float_ge x (width b) Gx) as (F' & IF' & BF').
      assert (F' = F) by congruence. lia.
    - destruct (float_mul_int_ge q 100 ltac:(lia) Gq Uq) as (y' & Y' & Gy).
      assert (y' = y) by congruence. subst y'.
      pose proof (float_tenths_ge y Gy). fold T in H. lia. }
  split; [exact C|]. split; [exact S|].
  intros sys_stdout tm. rewrite update_unfold.
  eexists; split; [reflexivity|].
  cbn [on_term term ProgressBar_init redrawn _started].
  rewrite last_written_writeln. reflexivity.
Qed.

Lemma C3_update_within_total_witness :
  let out := {| isatty := false; written := [] |} in
  let b := ProgressBar_init out 4 (Some 8) None in
  exists b' F T,
    update (Some 3) (lit "go") b = (b', Ok tt) /\
    0 <= F <= 8 /\ 0 <= T <= 1000 /\
    last_written (term b')
    = lit "[" ++ (repeat 9608 (Z.to_nat F) ++ repeat 9617 (Z.to_nat (8 - F)))
      ++ lit "] " ++ rjust (str_of_tenths T) 5 ++ lit "%" ++ lit " go" ++ [10].
Proof.
  intros out b.
  destruct (C3_update_within_total b 3 (lit "go"))
    as (b' & F & T & U & _ & _ & BF & BT & L & _); [reflexivity | | |].
  - split; [discriminate | reflexivity].
  - split; discriminate.
  - exists b', F, T. repeat split; try apply BF; try apply BT; assumption.
Defined.

(** The claim of C3 fails once current exceeds total: with total = 10 and
    width = 40, update(20) writes a bar of 80 filled glyphs, which is not
    width characters, and 200.0 as the percentage. *)
Lemma C3_counterexample :
  let out := {| isatty := false; written := [] |} in
  let b := ProgressBar_init out 10 (Some 40) None in
  total b > 0 /\
  exists b' bar,
    update (Some 20) [] b = (b', Ok tt) /\
    last_written (term b') = lit "[" ++ bar ++ lit "] " ++ lit "200.0%" ++ [10] /\
    bar = repeat 9608 80 /\
    len bar <> width b.
Proof.
  intros out b. split; [reflexivity|].
  eexists. exists (repeat 9608 80).
  split; [vm_compute; reflexivity|].
  split; [vm_compute; reflexivity|].
  split; [reflexivity | discriminate].
Qed.

(** *** A bar beyond its total *)

(** C10, as the code has it. On a bar with total > 0 and 0 < width < 2^31,
    update(current) with total < current < 2^31 does not raise and writes a
    bar of F filled glyphs and no unfilled glyph, where F is
    int(width * (current / total)) as doubles compute it and
    width <= F <= 2^62: the negative count of unfilled glyphs gives the
    empty string, and both counts are an ssize_t. The bar has at least
    width characters and the percentage shown is at least 100.0 (T tenths,
    T >= 1000). *)
Theorem C10_update_beyond_total :
  forall (b : ProgressBar) (cur : Z) (msg : pystr),
    0 < total b -> 0 < width b < 2 ^ 31 -> total b < cur < 2 ^ 31 ->
    exists b' F T,
      update (Some cur) msg b = (b', Ok tt) /\
      (q <- int_truediv cur (total b) ;;
       p <- int_mul_num (width b) (Float q) ;; int_of_num p) = Ok F /\
      (q <- int_truediv cur (total b) ;;
       p <- num_mul_int (Float q) 100 ;; format_num_5_1f p)
      = Ok (rjust (str_of_tenths T) 5) /\
      width b <= F <= 2 ^ 62 /\ 1000 <= T /\
      str_mul UNFILLED (width b - F) = Ok [] /\
      last_written (term b')
      = lit "[" ++ repeat 9608 (Z.to_nat F) ++ lit "] "
        ++ rjust (str_of_tenths T) 5 ++ lit "%" ++ message_suffix msg ++ [10] /\
      width b <= len (repeat 9608 (Z.to_nat F)) /\
      current b' = cur /\ _started b' = true.
Proof.
  intros b cur msg Ht Hw Hc.
  destruct (int_truediv_ge_1 cur (total b) ltac:(lia) ltac:(nia)) as (q & Q & Gq & Uq).
  destruct (int_truediv_le cur (total b) (2 ^ 31 - 1) ltac:(lia) Ht ltac:(lia) ltac:(nia))
    as (q' & Q' & Bq).
  assert (q' = q) by congruence. subst q'.
  destruct (int_mul_float_ge (width b) q ltac:(lia) Gq Uq) as (x & X & Gx).
  destruct (int_mul_float_le_pow2 (width b) q (2 ^ 31 - 1) 31 31
              ltac:(lia) ltac:(lia) ltac:(lia) ltac:(lia) Gq Bq ltac:(lia))
    as (x' & X' & Bx).
  assert (x' = x) by congruence. subst x'.
  destruct (int_of_float_ge x (width b) Gx) as (F & IF & BF).
  destruct (int_of_float_le x (2 ^ (31 + 31)) Bx) as (F' & IF' & BF').
  assert (F' = F) by congruence. subst F'.
  change (2 ^ (31 + 31)) with (2 ^ 62) in BF'.
  destruct (float_mul_int_ge q 100 ltac:(lia) Gq Uq) as (y & Y & Gy).
  pose proof (float_tenths_ge y Gy) as BT.
  set (T := float_tenths y) in *.
  assert (HF : (q <- int_truediv cur (total b) ;;
                p <- int_mul_num (width b) (Float q) ;; int_of_num p) = Ok F).
  { rewrite Q. cbn [bind]. rewrite X. cbn [bind int_of_num]. exact IF. }
  assert (HS : (q <- int_truediv cur (total b) ;;
                p <- num_mul_int (Float q) 100 ;; format_num_5_1f p)
               = Ok (rjust (str_of_tenths T) 5)).
  { rewrite Q. cbn [bind]. rewrite Y. cbn [bind format_num_5_1f].
    rewrite format_nonneg by (eapply float_ge_int_nonneg; exact Gy). reflexivity. }
  destruct (update_some_cases b cur msg F _ Ht HF HS ltac:(lia) ltac:(lia))
    as (b' & U & L & C & _ & _ & S).
  assert (N0 : Z.to_nat (width b - F) = 0%nat) by lia.
  assert (E : str_mul UNFILLED (width b - F) = Ok []).
  { unfold UNFILLED. rewrite str_mul_glyph by lia. rewrite N0. reflexivity. }
  exists b', F, T.
  split; [exact U|]. split; [exact HF|]. split; [exact HS|].
  split; [lia|]. split; [exact BT|]. split; [exact E|].
  split.
  { rewrite L, N0. cbn [repeat]. rewrite app_nil_r. reflexivity. }
  split.
  { unfold len. rewrite repeat_length. lia. }
  split; [exact C | exact S].
Qed.

Lemma C10_update_beyond_total_witness :
  let out := {| isatty := false; written := [] |} in
  let b := ProgressBar_init out 10 (Some 4) None in
  exists b' F T,
    update (Some 11) [] b = (b', Ok tt) /\
    4 <= F /\ 1000 <= T /\
    last_written (term b')
    = lit "[" ++ repeat 9608 (Z.to_nat F) ++ lit "] "
      ++ rjust (str_of_tenths T) 5 ++ lit "%" ++ [10].
Proof.
  intros out b.
  destruct (C10_update_beyond_total b 11 [])
    as (b' & F & T & U & _ & _ & BF & BT & _ & L & _); [reflexivity | | |].
  - split; reflexivity.
  - split; reflexivity.
  - exists b', F, T. repeat split; try assumption. apply BF.
Defined.

(** The claim of C10 fails where the overshoot is small: with total = 10000
    and width = 40, update(10001) writes a bar of 40 filled glyphs, which is
    width characters and no more, and the percentage text is 100.0, which
    does not exceed 100.0. *)
Lemma C10_counterexample :
  let out := {| isatty := false; written := [] |} in
  let b := ProgressBar_init out 10000 (Some 40) None in
  total b > 0 /\ width b > 0 /\ 10001 > total b /\
  exists b' bar,
    update (Some 10001) [] b = (b', Ok tt) /\
    last_written (term b') = lit "[" ++ bar ++ lit "] " ++ lit "100.0" ++ lit "%" ++ [10] /\
    bar = repeat 9608 40 /\
    ~ (len bar > width b).
Proof.
  intros out b. repeat (split; [reflexivity|]).
  eexists. exists (repeat 9608 40).
  split; [vm_compute; reflexivity|].
  split; [vm_compute; reflexivity|].
  split; [reflexivity|].
  intros H. vm_compute in H. discriminate.
Qed.

(** The doubles of [update] and the exact quotient part ways: with
    total = 49 and width = 49, update(1) fills no glyph, where
    floor(49 * 1 / 49) is 1. *)
Lemma filled_count_is_double_arithmetic :
  (q <- int_truediv 1 49 ;; p <- int_mul_num 49 (Float q) ;; int_of_num p) = Ok 0 /\
  49 * 1 / 49 = 1.
Proof. split; reflexivity. Qed.

(** Why the two theorems bound their inputs: a width that is not a double
    is rounded before it is multiplied, and a quotient beyond the doubles
    raises. *)
Lemma filled_count_beyond_doubles :
  (q <- int_truediv 7 7 ;;
   p <- int_mul_num (2 ^ 53 + 3) (Float q) ;; int_of_num p) = Ok (2 ^ 53 + 4) /\
  int_truediv (2 ^ 1100) 1 = Raise OverflowError.
Proof. split; vm_compute; reflexivity. Qed.

(* ================================================================= *)
(** * Further properties *)

(** ** Decimal text *)

Lemma lit_String a s : lit (String a s) = Z.of_N (N_of_ascii a) :: lit s.
Proof. reflexivity. Qed.

Lemma int_of_digits_acc d acc :
  0 < acc ->
  int_of_digits acc (lit (NilEmpty.string_of_uint d))
  = Ok (Z.pos (Pos.of_uint_acc d (Z.to_pos acc))).
Proof.
  revert acc; induction d; intros acc H;
    cbn [NilEmpty.string_of_uint Pos.of_uint_acc];
    [cbn; now rewrite Z2Pos.id | ..];
    rewrite lit_String; cbn [int_of_digits];
    match goal with
    | |- context [digit_of ?c] =>
        let v := eval vm_compute in (digit_of c) in
        change (digit_of c) with v
    end; cbv iota;
    rewrite IHd by lia; do 3 f_equal;
    apply Pos2Z.inj; rewrite Z2Pos.id by lia;
    rewrite ?Pos2Z.inj_add, Pos2Z.inj_mul, Z2Pos.id by lia; lia.
Qed.

Lemma int_of_digits_uint d :
  int_of_digits 0 (lit (NilEmpty.string_of_uint d)) = Ok (Z.of_N (Pos.of_uint d)).
Proof.
  induction d; cbn [NilEmpty.string_of_uint Pos.of_uint];
    [reflexivity | ..];
    rewrite lit_String; cbn [int_of_digits];
    match goal with
    | |- context [digit_of ?c] =>
        let v := eval vm_compute in (digit_of c) in
        change (digit_of c) with v
    end; cbv iota; cbn [Z.mul Z.add];
    [exact IHd | ..];
    rewrite int_of_digits_acc by lia; reflexivity.
Qed.

(** [int(str(n))] is [n], for an int that is not negative. *)
Lemma int_of_str_of_int n : 0 <= n -> int_of_str (str_of_int n) = Ok n.
Proof.
  intros H. destruct n as [|p|p]; [reflexivity| |lia].
  unfold str_of_int. cbn [Z.to_int NilZero.string_of_int].
  pose proof (DecimalPos.Unsigned.to_uint_nonnil p) as NN.
  pose proof (DecimalPos.Unsigned.of_to p) as OT.
  pose proof (int_of_digits_uint (Pos.to_uint p)) as D.
  unfold NilZero.string_of_uint.
  destruct (Pos.to_uint p) eqn:E; [congruence | ..];
    rewrite OT in D; unfold int_of_str;
    cbn [NilEmpty.string_of_uint] in *; rewrite lit_String in *; exact D.
Qed.

Lemma uint_digits d :
  Forall (fun c => 48 <= c <= 57) (lit (NilEmpty.string_of_uint d)).
Proof.
  induction d; cbn [NilEmpty.string_of_uint];
    try (rewrite lit_String; apply Forall_cons; [cbn; lia | exact IHd]).
  apply Forall_nil.
Qed.

(** The characters of [str(n)]: digits, after a minus sign when [n < 0]. *)
Lemma str_of_int_chars n :
  Forall (fun c => c = 45 \/ 48 <= c <= 57) (str_of_int n).
Proof.
  assert (U : forall d, Forall (fun c => c = 45 \/ 48 <= c <= 57)
                               (lit (NilZero.string_of_uint d))).
  { intros d. unfold NilZero.string_of_uint.
    destruct d; try (repeat constructor; cbn; lia);
      (eapply Forall_impl; [|apply uint_digits]); cbn beta; intros; lia. }
  unfold str_of_int. destruct n as [|p|p]; cbn [Z.to_int NilZero.string_of_int].
  - apply U.
  - apply U.
  - rewrite lit_String. constructor; [left; reflexivity | apply U].
Qed.

(** ** What every operation leaves alone *)

Lemma appends_refl t : appends t t [].
Proof. unfold appends. now rewrite app_nil_r. Qed.

Lemma appends_write t x : appends t (write t x) [x].
Proof. repeat split. Qed.

Lemma appends_trans a b c l1 l2 :
  appends a b l1 -> appends b c l2 -> appends a c (l1 ++ l2).
Proof.
  intros (T1 & I1 & W1) (T2 & I2 & W2).
  repeat split; try congruence. now rewrite W2, W1, app_assoc.
Qed.

Lemma appends_redrawn current_ b :
  appends (term b) (term (redrawn current_ b))
          (if _started b
           then [_escape (term b) (lit "1A"); _escape (term b) (lit "2K")]
           else []).
Proof.
  unfold redrawn; cbn [term]. destruct (_started b).
  - apply (appends_trans _ (write (term b) (_escape (term b) (lit "1A"))) _ [_] [_]);
      apply appends_write.
  - apply appends_refl.
Qed.

Lemma update_appends current_ message_ b :
  exists chunks,
    appends (term b) (term (fst (update current_ message_ b))) chunks /\
    (length chunks <= 3)%nat.
Proof.
  rewrite update_unfold. cbn zeta.
  pose proof (appends_redrawn current_ b) as R.
  assert (L : (length (if _started b
                       then [_escape (term b) (lit "1A"); _escape (term b) (lit "2K")]
                       else []) <= 2)%nat) by (destruct (_started b); cbn; lia).
  destruct (if total b >? 0 then _ else _) as [pct|e];
    [|eexists; split; [exact R | lia]].
  destruct (bind (int_mul_num (width b) pct) _) as [filled|e];
    [|eexists; split; [exact R | lia]].
  destruct (bind (str_mul FILLED filled) _) as [bar|e];
    [|eexists; split; [exact R | lia]].
  destruct (bind (num_mul_int pct 100) _) as [shown|e];
    [|eexists; split; [exact R | lia]].
  cbn [fst on_term term].
  eexists; split.
  - eapply appends_trans; [exact R | apply appends_write].
  - rewrite length_app. cbn [length]. lia.
Qed.

Lemma spin_appends s :
  exists chunks,
    appends (spinner_term s) (spinner_term (fst (spin s))) chunks /\
    length chunks = 3%nat.
Proof.
  unfold spin, bindM, modify, get, lift. rewrite spinner_column_0.
  cbn [on_spinner_term _frame message spinner_term].
  change (Z.of_nat (length FRAMES)) with 10.
  rewrite FRAMES_index by (apply Z.mod_pos_bound; lia).
  cbn [fst set_frame on_spinner_term spinner_term].
  eexists; split; [|shelve].
  eapply appends_trans; [|apply appends_write].
  eapply appends_trans; apply appends_write.
  Unshelve. reflexivity.
Qed.

Lemma stop_appends message_ s :
  exists chunks,
    appends (spinner_term s) (spinner_term (fst (stop message_ s))) chunks /\
    (2 <= length chunks <= 3)%nat /\
    _frame (fst (stop message_ s)) = _frame s /\
    snd (stop message_ s) = Ok tt.
Proof.
  unfold stop, bindM, modify, ret. rewrite spinner_column_0.
  destruct message_ as [[|c m]|];
    cbn [fst snd on_spinner_term spinner_term _frame];
    (eexists; split; [|split; [shelve | split; reflexivity]]).
  - eapply appends_trans; apply appends_write.
  - eapply appends_trans; [|apply appends_write].
    eapply appends_trans; apply appends_write.
  - eapply appends_trans; apply appends_write.
  Unshelve. all: cbn; lia.
Qed.

(** An operation that takes an int and builds its code first: it writes
    one chunk and returns, or raises ValueError and writes nothing. *)
Lemma emit_appends (t : Terminal) (n : Z) (k : pystr -> pystr) :
  let call := bindM (lift (format_int n))
                (fun s => modify (fun self => write self (_escape self (k s)))) in
  (exists x, call t = (write t x, Ok tt)) \/ call t = (t, Raise ValueError).
Proof.
  cbn zeta. unfold bindM, lift, modify.
  destruct (format_int_cases n) as [-> | ->]; [left; eexists; reflexivity | now right].
Qed.

Lemma move_appends (t : Terminal) (row col : Z) :
  (exists x, move row col t = (write t x, Ok tt)) \/
  move row col t = (t, Raise ValueError).
Proof.
  unfold move, bindM, lift, modify.
  destruct (format_int_cases (row + 1)) as [-> | ->]; [|now right].
  destruct (format_int_cases (col + 1)) as [-> | ->]; [|now right].
  left; eexists; reflexivity.
Qed.

(** X1. No operation changes is_tty, the stream's own answer to isatty, or
    what was written before. Each cursor and screen operation without an
    int argument, set_title, bell, write and writeln appends exactly one
    chunk (clear appends two, and returns). move, move_up, move_down,
    move_left, move_right and move_to_column either return after one
    write, or raise ValueError (an int argument of more than 4300 digits)
    and leave the terminal as it was. ProgressBar.update and finish append
    at most three chunks, also when they raise; Spinner.spin appends three
    and Spinner.stop two or three. *)
Theorem X1_operations_only_append :
  forall (t : Terminal),
    (forall f : Terminal -> Terminal,
        In f [clear_line; clear_to_end; save_cursor; restore_cursor;
              hide_cursor; show_cursor; bell] ->
        exists x, appends t (f t) [x]) /\
    (forall (n : Z) (f : Z -> M Terminal unit),
        In f [move_up; move_down; move_left; move_right; move_to_column] ->
        (exists x, f n t = (write t x, Ok tt)) \/ f n t = (t, Raise ValueError)) /\
    (forall row col,
        (exists x, move row col t = (write t x, Ok tt)) \/
        move row col t = (t, Raise ValueError)) /\
    (exists x y, snd (clear t) = Ok tt /\ appends t (fst (clear t)) [x; y]) /\
    (forall x, appends t (write t x) [x] /\ appends t (writeln t x) [x ++ [10]] /\
               exists y, appends t (set_title t x) [y]) /\
    (forall (b : ProgressBar) current_ msg,
        term b = t ->
        exists chunks,
          appends t (term (fst (update current_ msg b))) chunks /\
          (length chunks <= 3)%nat) /\
    (forall (b : ProgressBar) msg,
        term b = t ->
        exists chunks,
          appends t (term (fst (finish msg b))) chunks /\
          (length chunks <= 3)%nat) /\
    (forall (s : Spinner),
        spinner_term s = t ->
        exists chunks,
          appends t (spinner_term (fst (spin s))) chunks /\
          length chunks = 3%nat) /\
    (forall (s : Spinner) msg,
        spinner_term s = t ->
        exists chunks,
          appends t (spinner_term (fst (stop msg s))) chunks /\
          (2 <= length chunks <= 3)%nat).
Proof.
  intros t.
  split.
  { intros f H. cbn [In] in H.
    repeat (destruct H as [<-|H]; [eexists; apply appends_write|]).
    contradiction. }
  split.
  { intros n f H. cbn [In] in H.
    destruct H as [<-|[<-|[<-|[<-|[<-|[]]]]]];
      [apply (emit_appends t n (fun s => s ++ lit "A"))
      |apply (emit_appends t n (fun s => s ++ lit "B"))
      |apply (emit_appends t n (fun s => s ++ lit "D"))
      |apply (emit_appends t n (fun s => s ++ lit "C"))
      |apply (emit_appends t (n + 1) (fun s => s ++ lit "G"))]. }
  split; [intros; apply move_appends|].
  split.
  { do 2 eexists. split; [reflexivity|].
    apply (appends_trans _ (write t (_escape t (lit "2J"))) _ [_] [_]);
      apply appends_write. }
  split.
  { intros x. split; [apply appends_write|].
    split; [apply appends_write | eexists; apply appends_write]. }
  split; [intros b c m <-; apply update_appends|].
  split; [intros b m <-; apply update_appends|].
  split; [intros s <-; apply spin_appends|].
  intros s m <-. destruct (stop_appends m s) as (c & A & L & _).
  exists c; split; assumption.
Qed.

Lemma X1_operations_only_append_witness :
  let t := {| stream := {| isatty := true; written := [lit "before"] |};
              _is_tty := true |} in
  let b := {| total := 3; width := 5; term := t; current := 1; _started := true |} in
  exists chunks,
    appends t (term (fst (update None (lit "x") b))) chunks /\
    (length chunks <= 3)%nat.
Proof.
  intros t b.
  apply (proj1 (proj2 (proj2 (proj2 (proj2 (proj2 (X1_operations_only_append t)))))) b None (lit "x")).
  reflexivity.
Defined.

(** ** Cursor sequences *)

Lemma last_written_write t x : last_written (write t x) = x.
Proof.
  unfold last_written, write, stream_write; cbn [stream written].
  apply last_app_singleton.
Qed.

Lemma escape_on_tty t code : _is_tty t = true -> _escape t code = CSI ++ code.
Proof. unfold _escape; now intros ->. Qed.

Lemma lit_inj (a b : string) : lit a = lit b -> a = b.
Proof.
  unfold lit. intros H.
  rewrite <- (string_of_list_ascii_of_string a), <- (string_of_list_ascii_of_string b).
  f_equal.
  revert H. generalize (list_ascii_of_string a) (list_ascii_of_string b).
  induction l as [|x l IH]; intros [|y l']; cbn [map]; try discriminate;
    [reflexivity|].
  intros E. injection E as E1 E2.
  apply N2Z.inj in E1.
  apply (f_equal ascii_of_N) in E1. rewrite !ascii_N_embedding in E1.
  subst y. f_equal. apply IH. exact E2.
Qed.

(** Two ints with the same decimal text are the same int. *)
Lemma str_of_int_inj (n n' : Z) : str_of_int n = str_of_int n' -> n = n'.
Proof.
  unfold str_of_int. intros H. apply lit_inj in H.
  assert (NN : forall z, Z.to_int z <> Decimal.Pos Decimal.Nil
                         /\ Z.to_int z <> Decimal.Neg Decimal.Nil).
  { intros [|p|p]; cbn [Z.to_int]; split; try discriminate;
      intros E; injection E as E;
      exact (DecimalPos.Unsigned.to_uint_nonnil p E). }
  apply (f_equal NilZero.int_of_string) in H.
  rewrite !NilZero.isi in H by apply NN.
  injection H as H. apply DecimalZ.to_int_inj. exact H.
Qed.

Lemma app_sep_inj (c : pychar) (a a' r r' : pystr) :
  ~ In c a -> ~ In c a' -> a ++ c :: r = a' ++ c :: r' -> a = a' /\ r = r'.
Proof.
  revert a'. induction a as [|x a IH]; intros [|y a'] Ha Ha' E; cbn [app] in E.
  - injection E as E. now split.
  - injection E as E1 E2. exfalso. apply Ha'. left. now symmetry.
  - injection E as E1 E2. exfalso. apply Ha. now left.
  - injection E as E1 E2. subst y.
    destruct (IH a') as [-> ->]; [| |exact E2|now split].
    + intros I; apply Ha; now right.
    + intros I; apply Ha'; now right.
Qed.

Lemma str_of_int_no_semicolon n : ~ In 59 (str_of_int n).
Proof.
  intros I. pose proof (str_of_int_chars n) as F.
  rewrite Forall_forall in F. specialize (F 59 I). lia.
Qed.

(** X2. On a TTY, for every int argument that has a decimal text (at most
    4300 digits), negative ones included, a cursor operation returns after
    writing its sequence: move(row, col) writes CSI a ; b H where a and b
    are the texts of row + 1 and col + 1 (1-based coordinates for 0-based
    arguments), move_to_column(col) writes CSI a G with the text of
    col + 1, and move_up, move_down, move_right, move_left write CSI a
    followed by A, B, C, D with the text of n. The sequence of move gives
    its arguments back: two calls that write the same sequence had the
    same row and the same column. clear writes CSI 2J and then the
    sequence of move(0, 0), CSI 1;1H. *)
Theorem X2_cursor_numbers_round_trip :
  forall (t : Terminal) (row col n : Z),
    is_tty t = true ->
    ndigits (row + 1) <= max_str_digits ->
    ndigits (col + 1) <= max_str_digits ->
    ndigits n <= max_str_digits ->
    move row col t
    = (write t (CSI ++ str_of_int (row + 1) ++ lit ";" ++ str_of_int (col + 1)
                ++ lit "H"), Ok tt) /\
    move_to_column col t = (write t (CSI ++ str_of_int (col + 1) ++ lit "G"), Ok tt) /\
    move_up n t = (write t (CSI ++ str_of_int n ++ lit "A"), Ok tt) /\
    move_down n t = (write t (CSI ++ str_of_int n ++ lit "B"), Ok tt) /\
    move_right n t = (write t (CSI ++ str_of_int n ++ lit "C"), Ok tt) /\
    move_left n t = (write t (CSI ++ str_of_int n ++ lit "D"), Ok tt) /\
    (forall row' col',
        ndigits (row' + 1) <= max_str_digits ->
        ndigits (col' + 1) <= max_str_digits ->
        last_written (fst (move row' col' t)) = last_written (fst (move row col t)) ->
        row' = row /\ col' = col) /\
    snd (clear t) = Ok tt /\
    written (stream (fst (clear t)))
    = written (stream t) ++ [CSI ++ lit "2J"; CSI ++ lit "1;1H"].
Proof.
  intros t row col n Ht Hr Hc Hn.
  assert (T : _is_tty t = true) by exact Ht.
  assert (Mv : forall r c,
             ndigits (r + 1) <= max_str_digits -> ndigits (c + 1) <= max_str_digits ->
             move r c t
             = (write t (CSI ++ str_of_int (r + 1) ++ lit ";" ++ str_of_int (c + 1)
                         ++ lit "H"), Ok tt)).
  { intros r c Dr Dc. unfold move, bindM, lift, modify.
    rewrite (format_int_ok (r + 1)), (format_int_ok (c + 1)) by assumption.
    rewrite escape_on_tty by exact T. reflexivity. }
  assert (Em : forall k (code : pystr),
             ndigits k <= max_str_digits ->
             bindM (lift (format_int k))
               (fun s => modify (fun self => write self (_escape self (s ++ code)))) t
             = (write t (CSI ++ str_of_int k ++ code), Ok tt)).
  { intros k code Dk. unfold bindM, lift, modify.
    rewrite format_int_ok by exact Dk.
    rewrite escape_on_tty by exact T. reflexivity. }
  split; [apply Mv; assumption|].
  split; [apply (Em (col + 1) (lit "G")); exact Hc|].
  split; [apply (Em n (lit "A")); exact Hn|].
  split; [apply (Em n (lit "B")); exact Hn|].
  split; [apply (Em n (lit "C")); exact Hn|].
  split; [apply (Em n (lit "D")); exact Hn|].
  split.
  { intros row' col' Dr Dc E.
    rewrite !Mv in E by assumption. cbn [fst] in E.
    rewrite !last_written_write in E.
    apply app_inv_head in E.
    change (lit ";") with [59] in E. cbn [app] in E.
    apply app_sep_inj in E; try apply str_of_int_no_semicolon.
    destruct E as [E1 E2].
    apply app_inv_tail in E2.
    apply str_of_int_inj in E1, E2. lia. }
  split; [reflexivity|].
  unfold clear, move, bindM, modify, lift.
  change (format_int (0 + 1)) with (Ok (lit "1")). cbv iota beta.
  unfold write, stream_write, _escape. cbn [fst stream written _is_tty].
  rewrite T, <- !app_assoc. reflexivity.
Qed.

Lemma X2_cursor_numbers_round_trip_witness :
  let t := {| stream := {| isatty := true; written := [] |}; _is_tty := true |} in
  move (-3) 79 t = (write t (CSI ++ lit "-2;80H"), Ok tt) /\
  move_up (-1) t = (write t (CSI ++ lit "-1A"), Ok tt).
Proof.
  intros t.
  destruct (X2_cursor_numbers_round_trip t (-3) 79 (-1) eq_refl)
    as (M & _ & U & _); try (vm_compute; discriminate).
  split; [exact M | exact U].
Defined.

(** X19. rgb_fg and rgb_bg check no bounds: on a TTY, for all r, g, b that
    are not negative and have a decimal text (at most 4300 digits), 256 and
    more included, rgb_fg returns CSI 38;2;x;y;z m and rgb_bg returns
    CSI 48;2;x;y;z m with the same x, y, z, which read back with int() are
    r, g and b. *)
Theorem X19_rgb_passes_values_through :
  forall (t : Terminal) (r g b : Z),
    is_tty t = true -> 0 <= r -> 0 <= g -> 0 <= b ->
    ndigits r <= max_str_digits -> ndigits g <= max_str_digits ->
    ndigits b <= max_str_digits ->
    exists x y z,
      rgb_fg t r g b
      = Ok (CSI ++ lit "38;2;" ++ x ++ lit ";" ++ y ++ lit ";" ++ z ++ lit "m") /\
      rgb_bg t r g b
      = Ok (CSI ++ lit "48;2;" ++ x ++ lit ";" ++ y ++ lit ";" ++ z ++ lit "m") /\
      int_of_str x = Ok r /\ int_of_str y = Ok g /\ int_of_str z = Ok b /\
      ~ In 59 x /\ ~ In 59 y /\ ~ In 59 z.
Proof.
  intros t r g b T Hr Hg Hb Dr Dg Db.
  exists (str_of_int r), (str_of_int g), (str_of_int b).
  unfold rgb_fg, rgb_bg. unfold is_tty in T. rewrite T. cbn [negb].
  rewrite !format_int_ok by assumption. cbn [bind].
  do 2 (split; [reflexivity|]).
  do 3 (split; [apply int_of_str_of_int; assumption|]).
  repeat split; apply str_of_int_no_semicolon.
Qed.

Lemma X19_rgb_passes_values_through_witness :
  let t := {| stream := {| isatty := true; written := [] |}; _is_tty := true |} in
  exists x y z,
    rgb_fg t 300 0 255
    = Ok (CSI ++ lit "38;2;" ++ x ++ lit ";" ++ y ++ lit ";" ++ z ++ lit "m") /\
    int_of_str x = Ok 300 /\ int_of_str y = Ok 0 /\ int_of_str z = Ok 255.
Proof.
  intros t.
  destruct (X19_rgb_passes_values_through t 300 0 255)
    as (x & y & z & F & _ & X & Y & Z & _);
    [reflexivity | lia | lia | lia | | | |]; try (vm_compute; discriminate).
  exists x, y, z. repeat split; assumption.
Defined.

(** ** Styling *)

Lemma Style_value_no_semicolon s : ~ In 59 (Style_value s).
Proof. destruct s; cbn; intuition discriminate. Qed.

(** X3. On a TTY, style(s1, ..., sk) with at least one style is CSI, the
    parameters and m, and the parameters split on ";" are the values of
    s1, ..., sk in the order given; with no style at all it is the bare
    CSI m, and off a TTY it is empty. *)
Theorem X3_style_parameters :
  forall (t : Terminal) (styles : list Style),
    (is_tty t = true -> styles <> [] ->
     exists params,
       style t styles = CSI ++ params ++ lit "m" /\
       split 59 params = map Style_value styles) /\
    (is_tty t = true -> style t [] = CSI ++ lit "m") /\
    (is_tty t = false -> style t styles = []).
Proof.
  intros t styles. unfold is_tty, style.
  split; [|split]; intros ->; cbn [negb]; try reflexivity.
  intros NE.
  exists (join (lit ";") (map Style_value styles)).
  split; [reflexivity|].
  change (lit ";") with [59].
  apply split_join.
  - destruct styles; [congruence | discriminate].
  - apply Forall_map, Forall_forall. intros s _. apply Style_value_no_semicolon.
Qed.

Lemma X3_style_parameters_witness :
  let t := {| stream := {| isatty := true; written := [] |}; _is_tty := true |} in
  exists params,
    style t [BOLD; UNDERLINE; REVERSE] = CSI ++ params ++ lit "m" /\
    split 59 params = [lit "1"; lit "4"; lit "7"].
Proof.
  intros t.
  apply (proj1 (X3_style_parameters t [BOLD; UNDERLINE; REVERSE]) eq_refl).
  discriminate.
Defined.

(** X4. colored never raises, and on every terminal, TTY or not, it is
    the concatenation of what style (when styles are given), fg and bg (when
    a colour is given) return, then the text, then what reset returns: bg
    itself never raises, int() being applied to colour values only. *)
Theorem X4_colored_is_its_parts :
  forall (t : Terminal) (text : pystr) (fg_ bg_ : option Color)
         (styles : list Style),
    (forall c, exists s, bg t c = Ok s) /\
    exists b,
      match bg_ with Some c => bg t c | None => Ok [] end = Ok b /\
      colored t text fg_ bg_ styles
      = Ok (match styles with [] => [] | _ => style t styles end
            ++ match fg_ with Some c => fg t c | None => [] end
            ++ b ++ text ++ reset t).
Proof.
  intros t text fg_ bg_ styles.
  assert (B : forall c, exists s, bg t c = Ok s).
  { intros c. unfold bg. destruct (_is_tty t); cbn [negb]; [|eexists; reflexivity].
    rewrite (proj2 (Color_value_code c)). cbn [bind].
    rewrite format_bg_code. eexists; reflexivity. }
  split; [exact B|].
  unfold colored.
  destruct (_is_tty t) eqn:T; cbn [negb].
  - destruct bg_ as [c|].
    + destruct (B c) as (s & E). exists s. split; [exact E|].
      rewrite E. cbn [bind].
      destruct styles, fg_; cbn [app]; rewrite <- ?app_assoc; reflexivity.
    + exists []. split; [reflexivity|]. cbn [bind].
      destruct styles, fg_; cbn [app]; rewrite <- ?app_assoc; reflexivity.
  - exists []. split.
    + destruct bg_; [|reflexivity]. unfold bg. now rewrite T.
    + unfold style, fg, reset. rewrite T. cbn [negb].
      destruct styles, fg_; cbn [app]; now rewrite app_nil_r.
Qed.

(** ** What update writes *)

Lemma Forall_plain_lit_check (s : pystr) :
  forallb (fun c => (32 <=? c) && (c <=? 126)) s = true -> Forall plain s.
Proof.
  rewrite forallb_forall, Forall_forall. intros H c I.
  specialize (H c I). unfold plain. lia.
Qed.

Lemma str_of_int_plain n : Forall plain (str_of_int n).
Proof.
  eapply Forall_impl; [|apply str_of_int_chars].
  unfold plain; cbn beta; intros; lia.
Qed.

Lemma format_5_1f_plain x : Forall plain (format_5_1f x) /\ 5 <= len (format_5_1f x).
Proof.
  unfold format_5_1f, rjust. cbn zeta.
  set (body := match x with
               | S754_zero s => _
               | S754_infinity s => _
               | S754_nan => _
               | S754_finite s m e => _
               end).
  split.
  - apply Forall_app; split.
    + apply Forall_forall. intros c I. apply repeat_spec in I. subst. unfold plain; lia.
    + unfold body.
      assert (Sg : forall s : bool, Forall plain (if s then lit "-" else [])).
      { intros []; [apply Forall_plain_lit_check; reflexivity | constructor]. }
      destruct x as [s|s| |s m e].
      * apply Forall_app; split; [apply Sg | apply Forall_plain_lit_check; reflexivity].
      * apply Forall_app; split; [apply Sg | apply Forall_plain_lit_check; reflexivity].
      * apply Forall_plain_lit_check; reflexivity.
      * apply Forall_app; split; [apply Sg|].
        unfold str_of_tenths. repeat (apply Forall_app; split);
          try apply str_of_int_plain.
        apply Forall_plain_lit_check; reflexivity.
  - clearbody body. unfold len. rewrite length_app, repeat_length.
    unfold len, pystr, pychar in *. lia.
Qed.

Lemma format_num_plain p shown :
  format_num_5_1f p = Ok shown -> Forall plain shown /\ 5 <= len shown.
Proof.
  destruct p as [n|x]; cbn [format_num_5_1f].
  - destruct (float_of_int n) as [f|e]; cbn [bind]; [|discriminate].
    intros E; injection E as <-. apply format_5_1f_plain.
  - intros E; injection E as <-. apply format_5_1f_plain.
Qed.

Lemma bar_glyphs filled w bar :
  (done <- str_mul FILLED filled ;;
   todo <- str_mul UNFILLED (w - filled) ;; Ok (done ++ todo)) = Ok bar ->
  Forall bar_glyph bar.
Proof.
  unfold FILLED, UNFILLED.
  destruct (str_mul_glyph_cases 9608 filled) as [-> | ->]; [|discriminate].
  destruct (str_mul_glyph_cases 9617 (w - filled)) as [-> | ->]; [|discriminate].
  cbn [bind]. intros E; injection E as <-.
  apply Forall_app; split; apply Forall_forall; intros c I;
    apply repeat_spec in I; subst; [left | right]; reflexivity.
Qed.

(** Either [update] raises, having written the cursor chunks of a redraw
    at most, or it returns, having written them and then one line. *)
Lemma update_outcome current_ message_ b :
  let b' := fst (update current_ message_ b) in
  (total b' = total b /\ width b' = width b /\ _started b' = true /\
   current b' = match current_ with Some c => c | None => current b + 1 end) /\
  ((exists e, snd (update current_ message_ b) = Raise e /\
              appends (term b) (term b') (redraw_chunks b)) \/
   (exists bar shown,
       snd (update current_ message_ b) = Ok tt /\
       appends (term b) (term b')
               (redraw_chunks b
                ++ [lit "[" ++ bar ++ lit "] " ++ shown ++ lit "%"
                    ++ message_suffix message_ ++ [10]]) /\
       Forall bar_glyph bar /\ Forall plain shown /\ 5 <= len shown)).
Proof.
  rewrite update_unfold. cbn zeta.
  pose proof (appends_redrawn current_ b) as R. fold (redraw_chunks b) in R.
  destruct (if total b >? 0 then _ else _) as [pct|e];
    [|split; [repeat split | left; eexists; split; [reflexivity | exact R]]].
  destruct (bind (int_mul_num (width b) pct) _) as [filled|e];
    [|split; [repeat split | left; eexists; split; [reflexivity | exact R]]].
  destruct (bind (str_mul FILLED filled) _) as [bar|e] eqn:B;
    [|split; [repeat split | left; eexists; split; [reflexivity | exact R]]].
  destruct (bind (num_mul_int pct 100) _) as [shown|e] eqn:S;
    [|split; [repeat split | left; eexists; split; [reflexivity | exact R]]].
  split; [repeat split|].
  right. exists bar, shown.
  assert (P : Forall plain shown /\ 5 <= len shown).
  { destruct (num_mul_int pct 100) as [p|e]; cbn [bind] in S; [|discriminate].
    now apply format_num_plain in S. }
  split; [reflexivity|].
  split.
  { cbn [fst on_term term]. eapply appends_trans; [exact R|].
    unfold writeln. rewrite <- !app_assoc. apply appends_write. }
  split; [exact (bar_glyphs _ _ _ B) | exact P].
Qed.

(** ** Signs *)

Lemma binary_round_aux_negb s m e l :
  binary_round_aux prec emax (negb s) m e l
  = SFopp (binary_round_aux prec emax s m e l).
Proof.
  unfold binary_round_aux.
  destruct (shr_fexp prec emax m e l) as [mrs' e'].
  destruct (shr_fexp prec emax _ e' loc_Exact) as [mrs'' e''].
  destruct (shr_m mrs''); try reflexivity.
  destruct (e'' <=? emax - prec); reflexivity.
Qed.

Lemma SFmul_opp_r x y :
  SFmul prec emax x (SFopp y) = SFopp (SFmul prec emax x y).
Proof.
  destruct x as [sx|sx| |sx mx ex], y as [sy|sy| |sy my ey];
    cbn [SFmul SFopp]; try reflexivity;
    try (destruct sx, sy; reflexivity).
  rewrite <- binary_round_aux_negb. destruct sx, sy; reflexivity.
Qed.

Lemma SFmul_opp_l x y :
  SFmul prec emax (SFopp x) y = SFopp (SFmul prec emax x y).
Proof.
  destruct x as [sx|sx| |sx mx ex], y as [sy|sy| |sy my ey];
    cbn [SFmul SFopp]; try reflexivity;
    try (destruct sx, sy; reflexivity).
  rewrite <- binary_round_aux_negb. destruct sx, sy; reflexivity.
Qed.

Lemma int_truediv_opp a b :
  0 < a -> 0 < b ->
  int_truediv (- a) b = (x <- int_truediv a b ;; Ok (SFopp x)).
Proof.
  intros Ha Hb. unfold int_truediv.
  destruct (Z.eqb_spec b 0); [lia|].
  destruct (Z.eqb_spec a 0); [lia|].
  destruct (Z.eqb_spec (- a) 0); [lia|].
  replace (- a <? 0) with true by (symmetry; apply Z.ltb_lt; lia).
  replace (a <? 0) with false by (symmetry; apply Z.ltb_ge; lia).
  replace (b <? 0) with false by (symmetry; apply Z.ltb_ge; lia).
  rewrite Z.abs_opp. cbn [xorb].
  destruct (SFdiv_core_binary prec emax (Z.abs a) 0 (Z.abs b) 0) as [[q e] l].
  change true with (negb false). rewrite binary_round_aux_negb.
  destruct (binary_round_aux prec emax false q e l); reflexivity.
Qed.

Lemma int_of_float_opp x :
  int_of_float (SFopp x) = (n <- int_of_float x ;; Ok (- n)).
Proof.
  destruct x as [s|s| |s m e]; cbn [SFopp int_of_float bind]; try reflexivity.
  destruct s; cbn [negb]; f_equal; lia.
Qed.

Lemma format_opp_nonneg x :
  nonneg_float x ->
  format_5_1f (SFopp x)
  = rjust (lit "-" ++ str_of_tenths (float_tenths x)) 5.
Proof.
  destruct x as [[]| | |[] m e]; cbn [nonneg_float]; try tauto; reflexivity.
Qed.

(** ** The arithmetic of update on ints that doubles hold *)

Lemma float_ge_int_mono x W W' : float_ge_int x W -> W' <= W -> float_ge_int x W'.
Proof.
  destruct x as [[]| | |[] m e]; cbn; try tauto.
  intros H L.
  assert (0 < 2 ^ Z.max 0 (- e)) by (apply pow2_pos; lia). nia.
Qed.

Lemma bar_arithmetic a b W :
  0 < b -> 0 <= a < 2 ^ 53 * b -> 0 <= W < 2 ^ 53 ->
  exists q x F y,
    int_truediv a b = Ok q /\
    int_mul_num W (Float q) = Ok (Float x) /\
    int_of_float x = Ok F /\
    num_mul_int (Float q) 100 = Ok (Float y) /\
    nonneg_float y /\ 0 <= F /\ 0 <= float_tenths y /\
    (a <= b -> F <= W /\ float_tenths y <= 1000) /\
    (b <= a -> W <= F /\ 1000 <= float_tenths y) /\
    (a < 2 ^ 31 -> W < 2 ^ 31 -> F <= 2 ^ 62).
Proof.
  intros Hb Ha HW.
  destruct (Z.le_gt_cases a b) as [Le|Gt].
  - destruct (int_truediv_le_1 a b ltac:(lia) Hb) as (q & Q & Lq).
    destruct (int_mul_float_le W q HW Lq) as (x & X & Lx).
    destruct (int_of_float_le x W Lx) as (F & IF & BF).
    destruct (float_mul_int_le q 100 ltac:(lia) Lq) as (y & Y & Ly).
    pose proof (float_tenths_le y Ly) as BT.
    exists q, x, F, y.
    do 7 (split; [first [assumption | lia | eapply float_le_int_nonneg; eassumption]|]).
    split; [lia|].
    split; [|lia].
    intros E. assert (a = b) by lia. subst a.
    destruct (int_truediv_ge_1 b b ltac:(lia) ltac:(lia)) as (q' & Q' & Gq & Uq).
    assert (q' = q) by congruence. subst q'.
    split.
    + destruct (Z.eq_dec W 0) as [W0|WN]; [lia|].
      destruct (int_mul_float_ge W q ltac:(lia) Gq Uq) as (x' & X' & Gx).
      assert (x' = x) by congruence. subst x'.
      destruct (int_of_float_ge x W Gx) as (F' & IF' & BF').
      assert (F' = F) by congruence. lia.
    + destruct (float_mul_int_ge q 100 ltac:(lia) Gq Uq) as (y' & Y' & Gy).
      assert (y' = y) by congruence. subst y'.
      apply float_tenths_ge; exact Gy.
  - destruct (int_truediv_ge_1 a b ltac:(lia) ltac:(lia)) as (q & Q & Gq & Uq).
    destruct (float_mul_int_ge q 100 ltac:(lia) Gq Uq) as (y & Y & Gy).
    pose proof (float_tenths_ge y Gy) as BT.
    destruct (Z.eq_dec W 0) as [W0|WN].
    + subst W. exists q, (S754_zero false), 0, y.
      split; [exact Q|].
      split.
      { unfold int_mul_num. change (float_of_int 0) with (Ok (S754_zero false)).
        cbn [bind]. destruct q as [[]| | |[] mq eq]; cbn in Gq; try contradiction.
        reflexivity. }
      do 5 (split; [first [reflexivity | assumption | lia | eapply float_ge_int_nonneg; eassumption]|]).
      split; [|split]; intros; lia.
    + destruct (int_mul_float_ge W q ltac:(lia) Gq Uq) as (x & X & Gx).
      destruct (int_of_float_ge x W Gx) as (F & IF & BF).
      exists q, x, F, y.
      do 7 (split; [first [assumption | lia | eapply float_ge_int_nonneg; eassumption]|]).
      split; [|split]; intros; try lia.
      destruct (int_truediv_le a b (2 ^ 31 - 1) ltac:(lia) Hb ltac:(lia) ltac:(nia))
        as (q' & Q' & Bq).
      assert (q' = q) by congruence. subst q'.
      destruct (int_mul_float_le_pow2 W q (2 ^ 31 - 1) 31 31
                  ltac:(lia) ltac:(lia) ltac:(lia) ltac:(lia) Gq Bq ltac:(lia))
        as (x' & X' & Bx).
      assert (x' = x) by congruence. subst x'.
      destruct (int_of_float_le x (2 ^ (31 + 31)) Bx) as (F' & IF' & BF').
      assert (F' = F) by congruence. subst F'.
      change (2 ^ (31 + 31)) with (2 ^ 62) in BF'. lia.
Qed.

(** ** ProgressBar, beyond the claims *)

Lemma update_cases (b : ProgressBar) current_ (msg : pystr) (F : Z) (shown : pystr) :
  let cur := match current_ with Some c => c | None => current b + 1 end in
  0 < total b ->
  (q <- int_truediv cur (total b) ;;
   p <- int_mul_num (width b) (Float q) ;; int_of_num p) = Ok F ->
  (q <- int_truediv cur (total b) ;;
   p <- num_mul_int (Float q) 100 ;; format_num_5_1f p) = Ok shown ->
  - 2 ^ 63 <= F < 2 ^ 63 -> - 2 ^ 63 <= width b - F < 2 ^ 63 ->
  exists b',
    update current_ msg b = (b', Ok tt) /\
    last_written (term b')
    = lit "[" ++ (repeat 9608 (Z.to_nat F) ++ repeat 9617 (Z.to_nat (width b - F)))
      ++ lit "] " ++ shown ++ lit "%" ++ message_suffix msg ++ [10] /\
    current b' = cur /\ total b' = total b /\ width b' = width b /\
    _started b' = true /\ _is_tty (term b') = _is_tty (term b).
Proof.
  intros cur Ht HF HS RF RW.
  pose proof (update_outcome current_ msg b) as [_ O]. cbn zeta in O.
  rewrite update_unfold in *. cbn zeta in *.
  replace (total b >? 0) with true in * by (symmetry; apply Z.gtb_lt; exact Ht).
  cbn [redrawn current] in *. fold cur in O |- *.
  destruct (int_truediv cur (total b)) as [q|e]; [|discriminate].
  cbn [bind] in *. rewrite HF, HS, bar_ok in * by assumption.
  eexists; split; [reflexivity|].
  cbn [on_term term current total width _started].
  rewrite last_written_writeln, <- !app_assoc.
  repeat split.
  destruct O as [(e & R & _)|(bar & sh & _ & (T & _) & _)]; [discriminate|].
  exact T.
Qed.


(** X5. update records its argument (or the old current plus one) in
    current and sets the started flag before it computes anything, so both
    are in the bar afterwards whether the call returns or raises; total and
    width are never changed. A call that raises exists: with total = 1,
    update(2^1100) raises OverflowError, and the bar is started without a
    line having been written. *)
Theorem X5_update_records_before_it_computes :
  forall (b : ProgressBar) (current_ : option Z) (msg : pystr),
    let b' := fst (update current_ msg b) in
    total b' = total b /\ width b' = width b /\ _started b' = true /\
    current b' = match current_ with Some c => c | None => current b + 1 end /\
    (forall (sys_stdout : Stream),
        let b1 := ProgressBar_init sys_stdout 1 None None in
        update (Some (2 ^ 1100)) [] b1
        = ({| total := 1; width := 40; term := term b1;
              current := 2 ^ 1100; _started := true |},
           Raise OverflowError)).
Proof.
  intros b current_ msg.
  pose proof (update_outcome current_ msg b) as [(T & W & S & C) _].
  cbn zeta. repeat (split; [assumption|]).
  intros sys_stdout. rewrite update_unfold.
  cbn [ProgressBar_init total width term current _started redrawn].
  cbn zeta. change (1 >? 0) with true. cbv iota.
  replace (int_truediv (2 ^ 1100) 1) with (@Raise spec_float OverflowError)
    by (vm_compute; reflexivity).
  reflexivity.
Qed.

(** X6. An update that returns writes, after what the stream held: on a
    bar that was started, the two cursor chunks of a redraw (ESC [ 1 A and
    ESC [ 2 K on a TTY, two empty chunks otherwise), none on a new bar; then
    one chunk, the line: "[", a bar made of the two block glyphs only,
    "] ", a percentage of printable ASCII characters, at least 5 of them,
    "%", the message after a space if there is one, and a newline. *)
Theorem X6_update_redraw_protocol :
  forall (b b' : ProgressBar) (current_ : option Z) (msg : pystr),
    update current_ msg b = (b', Ok tt) ->
    exists bar shown,
      written (stream (term b'))
      = written (stream (term b))
        ++ (if _started b
            then if is_tty (term b)
                 then [[27] ++ lit "[1A"; [27] ++ lit "[2K"]
                 else [[]; []]
            else [])
        ++ [lit "[" ++ bar ++ lit "] " ++ shown ++ lit "%"
            ++ message_suffix msg ++ [10]] /\
      Forall bar_glyph bar /\ Forall plain shown /\ 5 <= len shown /\
      _started b' = true.
Proof.
  intros b b' current_ msg U.
  pose proof (update_outcome current_ msg b) as [(_ & _ & S & _) O].
  rewrite U in *. cbn [fst snd] in *.
  destruct O as [(e & R & _)|(bar & shown & _ & (_ & _ & W) & Gb & Ps & Ls)];
    [discriminate|].
  exists bar, shown.
  split; [|repeat split; assumption].
  rewrite W. f_equal. f_equal.
  unfold redraw_chunks, is_tty, _escape.
  destruct (_started b), (_is_tty (term b)); reflexivity.
Qed.

Lemma X6_update_redraw_protocol_witness :
  let t := {| stream := {| isatty := true; written := [] |}; _is_tty := true |} in
  let b := {| total := 4; width := 8; term := t; current := 1; _started := true |} in
  exists bar shown,
    written (stream (term (fst (update None [] b))))
    = [[27] ++ lit "[1A"; [27] ++ lit "[2K";
       lit "[" ++ bar ++ lit "] " ++ shown ++ lit "%" ++ [10]] /\
    Forall bar_glyph bar /\ Forall plain shown.
Proof.
  intros t b.
  destruct (X6_update_redraw_protocol b (fst (update None [] b)) None [])
    as (bar & shown & W & Gb & Ps & _).
  { vm_compute. reflexivity. }
  exists bar, shown. repeat split; assumption.
Defined.



(** X9. finish on a bar with total > 0 and 0 <= width < 2^53 does not
    raise and draws the full bar: width filled glyphs, no unfilled one, the
    percentage 100.0, then the message ("Done!" when none is given), and
    current is total afterwards. *)
Theorem X9_finish_draws_the_full_bar :
  forall (b : ProgressBar) (msg : option pystr),
    0 < total b -> 0 <= width b < 2 ^ 53 ->
    exists b',
      finish msg b = (b', Ok tt) /\
      last_written (term b')
      = lit "[" ++ repeat 9608 (Z.to_nat (width b)) ++ lit "] " ++ lit "100.0"
        ++ lit "%"
        ++ message_suffix (match msg with Some m => m | None => lit "Done!" end)
        ++ [10] /\
      current b' = total b.
Proof.
  intros b msg Ht Hw. unfold finish.
  destruct (bar_arithmetic (total b) (total b) (width b) Ht ltac:(lia) Hw)
    as (q & x & F & y & Q & X & IF & Y & Ny & F0 & T0 & Le & Ge & _).
  destruct (Le ltac:(lia)) as [F1 T1]. destruct (Ge ltac:(lia)) as [F2 T2].
  assert (EF : F = width b) by lia.
  assert (ET : float_tenths y = 1000) by lia.
  edestruct (update_cases b (Some (total b))) as (b' & U & L & C & _).
  - exact Ht.
  - cbn zeta. rewrite Q. cbn [bind]. rewrite X. cbn [bind int_of_num]. exact IF.
  - cbn zeta. rewrite Q. cbn [bind]. rewrite Y. cbn [bind format_num_5_1f].
    rewrite format_nonneg by exact Ny. rewrite ET. reflexivity.
  - lia.
  - lia.
  - exists b'. split; [exact U|]. split; [|exact C].
    rewrite L, EF, Z.sub_diag.
    cbn [Z.to_nat repeat]. rewrite app_nil_r. reflexivity.
Qed.

Lemma X9_finish_draws_the_full_bar_witness :
  let out := {| isatty := false; written := [] |} in
  let b := ProgressBar_init out 7 (Some 3) None in
  exists b',
    finish None b = (b', Ok tt) /\
    last_written (term b')
    = lit "[" ++ [9608; 9608; 9608] ++ lit "] 100.0% Done!" ++ [10] /\
    current b' = 7.
Proof.
  intros out b.
  destruct (X9_finish_draws_the_full_bar b None) as (b' & U & L & C);
    [reflexivity | split; [discriminate | reflexivity] |].
  exists b'. repeat split; assumption.
Defined.

Lemma ticks_progress (b0 : ProgressBar) (k : nat) :
  0 < total b0 -> 0 <= width b0 < 2 ^ 53 -> 0 <= current b0 ->
  current b0 + Z.of_nat k <= total b0 ->
  exists b',
    ticks k b0 = (b', Ok tt) /\
    current b' = current b0 + Z.of_nat k /\
    total b' = total b0 /\ width b' = width b0 /\
    (current b' = total b' -> (0 < k)%nat ->
     last_written (term b')
     = lit "[" ++ repeat 9608 (Z.to_nat (width b0)) ++ lit "] " ++ lit "100.0"
       ++ lit "%" ++ [10]).
Proof.
  intros Ht Hw Hc. induction k as [|k IH]; intros Hk.
  - exists b0. repeat split; [cbn; lia | lia].
  - destruct IH as (b & R & C & T & W & _); [lia|].
    cbn [ticks]. unfold bindM at 1. rewrite R.
    destruct (bar_arithmetic (current b + 1) (total b) (width b))
      as (q & x & F & y & Q & X & IF & Y & Ny & F0 & T0 & Le & Ge & _); try lia.
    edestruct (update_cases b None [] F) as (b' & U & L & C' & T' & W' & _).
    + lia.
    + cbn zeta. rewrite Q. cbn [bind]. rewrite X. cbn [bind int_of_num]. exact IF.
    + cbn zeta. rewrite Q. cbn [bind]. rewrite Y. cbn [bind format_num_5_1f].
      rewrite format_nonneg by exact Ny. reflexivity.
    + destruct (Le ltac:(lia)). lia.
    + destruct (Le ltac:(lia)). lia.
    + exists b'. split; [exact U|].
      split; [lia|]. split; [lia|]. split; [lia|].
      intros E _.
      destruct (Le ltac:(lia)) as [F1 T1]. destruct (Ge ltac:(lia)) as [F2 T2].
      rewrite L. replace F with (width b0) by lia.
      replace (float_tenths y) with 1000 by lia.
      rewrite W, Z.sub_diag.
      cbn [Z.to_nat repeat message_suffix]. rewrite !app_nil_r. reflexivity.
Qed.

(** X10. Ticking a new bar total times fills it: on
    ProgressBar(n, width) with n >= 1 and 0 <= width < 2^53, n calls of
    update() in a row all return, current is n afterwards, and the last line
    written is the full bar, width filled glyphs, with 100.0 as the
    percentage. *)
Theorem X10_ticks_fill_the_bar :
  forall (sys_stdout : Stream) (tm : option Terminal) (n : nat) (w : Z),
    (0 < n)%nat -> 0 <= w < 2 ^ 53 ->
    exists b',
      ticks n (ProgressBar_init sys_stdout (Z.of_nat n) (Some w) tm) = (b', Ok tt) /\
      current b' = Z.of_nat n /\
      last_written (term b')
      = lit "[" ++ repeat 9608 (Z.to_nat w) ++ lit "] " ++ lit "100.0" ++ lit "%"
        ++ [10].
Proof.
  intros sys_stdout tm n w Hn Hw.
  destruct (ticks_progress (ProgressBar_init sys_stdout (Z.of_nat n) (Some w) tm) n)
    as (b' & R & C & T & W & L); cbn [ProgressBar_init total width current]; try lia.
  exists b'. cbn [ProgressBar_init total width current] in *.
  split; [exact R|]. split; [lia|]. apply L; lia.
Qed.

Lemma X10_ticks_fill_the_bar_witness :
  let out := {| isatty := false; written := [] |} in
  exists b',
    ticks 3 (ProgressBar_init out 3 (Some 2) None) = (b', Ok tt) /\
    current b' = 3 /\
    last_written (term b') = lit "[" ++ [9608; 9608] ++ lit "] 100.0%" ++ [10].
Proof.
  intros out.
  destruct (X10_ticks_fill_the_bar out None 3 2) as (b' & R & C & L);
    [lia | lia |].
  exists b'. repeat split; assumption.
Defined.

(** X11. A negative current is not rejected: on a bar with total > 0 and
    0 <= width < 2^31, update(-a) with 0 < a < 2^31 does not raise; the
    filled count is -F, where F, 0 <= F <= 2^62, is the count that
    update(a) computes, so that no filled glyph is written and width + F
    unfilled ones are, at least width of them (both counts are an
    ssize_t); the percentage is the one of update(a) after a minus
    sign. *)
Theorem X11_update_with_negative_current :
  forall (b : ProgressBar) (a : Z) (msg : pystr),
    0 < total b -> 0 <= width b < 2 ^ 31 -> 0 < a < 2 ^ 31 ->
    exists b' F T,
      update (Some (- a)) msg b = (b', Ok tt) /\
      (q <- int_truediv a (total b) ;;
       p <- int_mul_num (width b) (Float q) ;; int_of_num p) = Ok F /\
      (q <- int_truediv (- a) (total b) ;;
       p <- int_mul_num (width b) (Float q) ;; int_of_num p) = Ok (- F) /\
      (q <- int_truediv a (total b) ;;
       p <- num_mul_int (Float q) 100 ;; format_num_5_1f p)
      = Ok (rjust (str_of_tenths T) 5) /\
      0 <= F <= 2 ^ 62 /\ 0 <= T /\
      last_written (term b')
      = lit "[" ++ repeat 9617 (Z.to_nat (width b + F)) ++ lit "] "
        ++ rjust (lit "-" ++ str_of_tenths T) 5 ++ lit "%"
        ++ message_suffix msg ++ [10] /\
      current b' = - a.
Proof.
  intros b a msg Ht Hw Ha.
  destruct (bar_arithmetic a (total b) (width b) Ht ltac:(nia) ltac:(lia))
    as (q & x & F & y & Q & X & IF & Y & Ny & F0 & T0 & _ & _ & FU).
  specialize (FU ltac:(lia) ltac:(lia)).
  pose proof (int_truediv_opp a (total b) ltac:(lia) Ht) as QN.
  rewrite Q in QN. cbn [bind] in QN.
  assert (XN : int_mul_num (width b) (Float (SFopp q)) = Ok (Float (SFopp x))).
  { unfold int_mul_num in *.
    destruct (float_of_int (width b)) as [wf|e]; cbn [bind] in *; [|discriminate].
    injection X as <-. now rewrite SFmul_opp_r. }
  assert (YN : num_mul_int (Float (SFopp q)) 100 = Ok (Float (SFopp y))).
  { unfold num_mul_int in *.
    destruct (float_of_int 100) as [kf|e]; cbn [bind] in *; [|discriminate].
    injection Y as <-. now rewrite SFmul_opp_l. }
  assert (HF : (q <- int_truediv a (total b) ;;
                p <- int_mul_num (width b) (Float q) ;; int_of_num p) = Ok F).
  { rewrite Q. cbn [bind]. rewrite X. cbn [bind int_of_num]. exact IF. }
  assert (HFN : (q <- int_truediv (- a) (total b) ;;
                 p <- int_mul_num (width b) (Float q) ;; int_of_num p) = Ok (- F)).
  { rewrite QN. cbn [bind]. rewrite XN. cbn [bind int_of_num].
    rewrite int_of_float_opp, IF. reflexivity. }
  assert (HS : (q <- int_truediv a (total b) ;;
                p <- num_mul_int (Float q) 100 ;; format_num_5_1f p)
               = Ok (rjust (str_of_tenths (float_tenths y)) 5)).
  { rewrite Q. cbn [bind]. rewrite Y. cbn [bind format_num_5_1f].
    rewrite format_nonneg by exact Ny. reflexivity. }
  edestruct (update_cases b (Some (- a)) msg (- F)) as (b' & U & L & C & _).
  - exact Ht.
  - exact HFN.
  - cbn zeta. rewrite QN. cbn [bind]. rewrite YN. cbn [bind format_num_5_1f].
    rewrite format_opp_nonneg by exact Ny. reflexivity.
  - lia.
  - lia.
  - exists b', F, (float_tenths y).
    repeat (split; [assumption || lia|]).
    split; [|exact C].
    rewrite L.
    replace (Z.to_nat (- F)) with 0%nat by lia.
    replace (width b - - F) with (width b + F) by lia.
    reflexivity.
Qed.

Lemma X11_update_with_negative_current_witness :
  let out := {| isatty := false; written := [] |} in
  let b := ProgressBar_init out 10 (Some 4) None in
  exists b' F T,
    update (Some (- 5)) [] b = (b', Ok tt) /\
    0 <= F /\ 0 <= T /\
    last_written (term b')
    = lit "[" ++ repeat 9617 (Z.to_nat (4 + F)) ++ lit "] "
      ++ rjust (lit "-" ++ str_of_tenths T) 5 ++ lit "%" ++ [10].
Proof.
  intros out b.
  destruct (X11_update_with_negative_current b 5 [])
    as (b' & F & T & U & _ & _ & _ & F0 & T0 & L & _);
    [reflexivity | split; [discriminate | reflexivity] | lia |].
  exists b', F, T. repeat split; try assumption. apply F0.
Defined.

(** ** Spinner, beyond the claims *)

Lemma escape_appends (t t' : Terminal) l code :
  appends t t' l -> _escape t' code = _escape t code.
Proof. intros (T & _). unfold _escape. now rewrite T. Qed.

Lemma spin_outcome (s : Spinner) :
  exists s',
    spin s = (s', Ok tt) /\
    _frame s' = _frame s + 1 /\ message s' = message s /\
    _running s' = _running s /\
    appends (spinner_term s) (spinner_term s')
            [_escape (spinner_term s) (lit "1G");
             _escape (spinner_term s) (lit "2K");
             nth (Z.to_nat (_frame s mod 10)) FRAMES [] ++ lit " " ++ message s].
Proof.
  unfold spin, bindM, modify, get, lift. rewrite spinner_column_0.
  cbn [on_spinner_term _frame message spinner_term].
  change (Z.of_nat (length FRAMES)) with 10.
  rewrite FRAMES_index by (apply Z.mod_pos_bound; lia).
  eexists; split; [reflexivity|].
  cbn [set_frame on_spinner_term _frame message spinner_term _running].
  do 3 (split; [reflexivity|]).
  unfold appends, clear_line, move_to_column, write, stream_write, _escape.
  cbn [stream written _is_tty isatty]. rewrite <- !app_assoc.
  repeat split.
Qed.

Lemma contents_appends t t' chunks :
  appends t t' chunks ->
  contents (stream t') = contents (stream t) ++ concat chunks.
Proof. intros (_ & _ & W). unfold contents. now rewrite W, concat_app. Qed.

Lemma spins_contents (n : nat) (s0 : Spinner) :
  exists s,
    spins n s0 = (s, Ok tt) /\
    _frame s = _frame s0 + Z.of_nat n /\ message s = message s0 /\
    appends (spinner_term s0) (spinner_term s)
            (concat (map (fun k =>
                            [_escape (spinner_term s0) (lit "1G");
                             _escape (spinner_term s0) (lit "2K");
                             nth (Z.to_nat ((_frame s0 + Z.of_nat k) mod 10)) FRAMES []
                             ++ lit " " ++ message s0])
                         (seq 0 n))).
Proof.
  induction n as [|n IH].
  - exists s0. repeat split; [cbn; lia | apply appends_refl].
  - destruct IH as (s & R & F & Msg & A).
    destruct (spin_outcome s) as (s' & R' & F' & Msg' & _ & A').
    exists s'. cbn [spins]. unfold bindM at 1. rewrite R, R'.
    split; [reflexivity|]. split; [lia|]. split; [congruence|].
    rewrite seq_S, map_app, concat_app. cbn [map concat]. rewrite app_nil_r.
    eapply appends_trans; [exact A|].
    rewrite !(escape_appends _ _ _ _ A), F, Msg in A'. exact A'.
Qed.

(** X12. spin never raises, whatever the counter, negative values
    included (the index is the counter modulo 10, never out of range): it
    writes the frame FRAMES[_frame mod 10], a space and the message after the
    two cursor chunks, adds one to the counter and leaves the message as it
    is. *)
Theorem X12_spin_from_any_state :
  forall (s : Spinner),
    exists s' frame,
      spin s = (s', Ok tt) /\
      index FRAMES (_frame s mod 10) = Ok frame /\ In frame FRAMES /\
      written (stream (spinner_term s'))
      = written (stream (spinner_term s))
        ++ [_escape (spinner_term s) (lit "1G");
            _escape (spinner_term s) (lit "2K");
            frame ++ lit " " ++ message s] /\
      _frame s' = _frame s + 1 /\ message s' = message s.
Proof.
  intros s.
  destruct (spin_outcome s) as (s' & R & F & M & _ & (_ & _ & W)).
  exists s', (nth (Z.to_nat (_frame s mod 10)) FRAMES []).
  pose proof (Z.mod_pos_bound (_frame s) 10 ltac:(lia)) as B.
  split; [exact R|].
  split; [apply FRAMES_index; exact B|].
  split.
  { apply nth_In. change (length FRAMES) with 10%nat. lia. }
  repeat split; assumption.
Qed.

(** X13. n calls of spin() in a row add to the stream, in this order and
    with nothing between them, the texts of calls 0 to n-1: each is the two
    cursor sequences (ESC [ 1 G and ESC [ 2 K on a TTY, nothing otherwise),
    the frame of its turn, a space and the message; there is no newline
    unless the message holds one, so that off a TTY the frames pile up on one
    line. *)
Theorem X13_spins_add_their_frames :
  forall (s0 : Spinner) (n : nat),
    exists s,
      spins n s0 = (s, Ok tt) /\
      _frame s = _frame s0 + Z.of_nat n /\
      contents (stream (spinner_term s))
      = contents (stream (spinner_term s0))
        ++ concat (map (spin_text (spinner_term s0) (message s0) (_frame s0))
                       (seq 0 n)) /\
      (is_tty (spinner_term s0) = false -> ~ In 10 (message s0) ->
       count_occ Z.eq_dec (contents (stream (spinner_term s))) 10
       = count_occ Z.eq_dec (contents (stream (spinner_term s0))) 10).
Proof.
  intros s0 n.
  destruct (spins_contents n s0) as (s & R & F & _ & A).
  exists s. split; [exact R|]. split; [exact F|].
  assert (C : contents (stream (spinner_term s))
              = contents (stream (spinner_term s0))
                ++ concat (map (spin_text (spinner_term s0) (message s0) (_frame s0))
                               (seq 0 n))).
  { rewrite (contents_appends _ _ _ A). f_equal. clear A.
    induction (seq 0 n) as [|k l IH]; [reflexivity|].
    cbn [map concat]. rewrite concat_app, IH. f_equal.
    unfold spin_text. cbn [concat]. rewrite app_nil_r, <- ?app_assoc.
    reflexivity. }
  split; [exact C|].
  intros T NL. rewrite C, count_occ_app.
  match goal with
  | |- (_ + ?x)%nat = _ => assert (Z0 : x = 0%nat); [|rewrite Z0; apply Nat.add_0_r]
  end.
  apply count_occ_not_In. rewrite in_concat.
  intros (x & Hx & I). apply in_map_iff in Hx. destruct Hx as (k & <- & _).
  unfold spin_text, _escape in I. unfold is_tty in T. rewrite T in I.
  cbn [app] in I. rewrite in_app_iff in I.
  change (lit " " ++ message s0) with (32 :: message s0) in I.
  destruct I as [I|[I|I]]; [|discriminate | exact (NL I)].
  set (fr := nth (Z.to_nat ((_frame s0 + Z.of_nat k) mod 10)) FRAMES []) in *.
  assert (H : In fr FRAMES).
  { apply nth_In. change (length FRAMES) with 10%nat.
    pose proof (Z.mod_pos_bound (_frame s0 + Z.of_nat k) 10 ltac:(lia)). lia. }
  clearbody fr. unfold FRAMES in H. cbn [In] in H.
  repeat (destruct H as [<-|H]; [cbn in I; intuition discriminate|]).
  contradiction.
Qed.

Lemma stop_outcome (s : Spinner) (msg : option pystr) :
  exists s1,
    stop msg s = (s1, Ok tt) /\
    _frame s1 = _frame s /\ message s1 = message s /\
    written (stream (spinner_term s1))
    = written (stream (spinner_term s))
      ++ [_escape (spinner_term s) (lit "1G");
          _escape (spinner_term s) (lit "2K")]
      ++ match msg with
         | None | Some [] => []
         | Some m => [[10003; 32] ++ m ++ [10]]
         end.
Proof.
  unfold stop, bindM, modify, ret. rewrite spinner_column_0.
  destruct msg as [[|c m]|];
    cbn [on_spinner_term spinner_term _frame message];
    (eexists; split; [reflexivity|]);
    cbn [on_spinner_term spinner_term _frame message];
    unfold clear_line, move_to_column, writeln, write, stream_write, _escape;
    cbn [stream written _is_tty]; rewrite <- ?app_assoc; repeat split.
Qed.

(** X14. stop never raises and leaves the counter alone, so a spin()
    after stop() writes the frame it would have written without the stop.
    After the two cursor chunks stop writes nothing when the message is None
    or empty, and one chunk, the check mark, a space, the message and a
    newline, otherwise. *)
Theorem X14_stop_keeps_the_animation :
  forall (s : Spinner) (msg : option pystr),
    exists s1,
      stop msg s = (s1, Ok tt) /\
      _frame s1 = _frame s /\ message s1 = message s /\
      written (stream (spinner_term s1))
      = written (stream (spinner_term s))
        ++ [_escape (spinner_term s) (lit "1G");
            _escape (spinner_term s) (lit "2K")]
        ++ match msg with
           | None | Some [] => []
           | Some m => [[10003; 32] ++ m ++ [10]]
           end /\
      exists s2 s2',
        spin s1 = (s2, Ok tt) /\ spin s = (s2', Ok tt) /\
        last_written (spinner_term s2) = last_written (spinner_term s2').
Proof.
  intros s msg.
  destruct (stop_outcome s msg) as (s1 & R & F & M & W).
  exists s1. repeat (split; [assumption|]).
  destruct (spin_outcome s1) as (s2 & R2 & _ & _ & _ & (_ & _ & W2)).
  destruct (spin_outcome s) as (s2' & R2' & _ & _ & _ & (_ & _ & W2')).
  exists s2, s2'. split; [exact R2|]. split; [exact R2'|].
  unfold last_written. rewrite W2, W2', F, M.
  change (?a ++ [?x; ?y; ?z]) with (a ++ [x; y] ++ [z]).
  rewrite !app_assoc, !last_app_singleton. reflexivity.
Qed.

(** ** Box, beyond the claims *)

(** X15. A style name that is not one of "single", "double", "rounded"
    and "heavy" is not an error: Box.draw draws what it draws for
    "single". *)
Theorem X15_unknown_style_is_single :
  forall (sys_stdout : Stream) (content : pystr) (width_ : option Z)
         (style_ : pystr) (term_ : option Terminal),
    ~ In style_ [lit "single"; lit "double"; lit "rounded"; lit "heavy"] ->
    draw sys_stdout content width_ style_ term_
    = draw sys_stdout content width_ (lit "single") term_.
Proof.
  intros sys_stdout content width_ style_ term_ H.
  unfold draw.
  rewrite (dict_get_missing STYLES style_ STYLES_single) by exact H.
  reflexivity.
Qed.

Lemma X15_unknown_style_is_single_witness :
  let out := {| isatty := false; written := [] |} in
  draw out (lit "hi") None (lit "dotted") None
  = draw out (lit "hi") None (lit "single") None.
Proof.
  intros out. apply X15_unknown_style_is_single.
  cbn [In]. intros [E|[E|[E|[E|[]]]]]; discriminate E.
Defined.

(** What [Box.draw] returned, when it returned. *)
Lemma draw_ok_lines sys_stdout content width_ style_ term_ out :
  draw sys_stdout content width_ style_ term_ = Ok out ->
  let lines := split NL content in
  exists max_len tl tr bl br h v,
    Forall (fun line => len line <= max_len) lines /\
    Exists (fun line => len line = max_len) lines /\
    dict_get STYLES style_ STYLES_single = (tl, tr, bl, br, h, v) /\
    let inner_width := box_width width_ max_len - 2 in
    let parts :=
      (tl ++ copies h inner_width ++ tr)
        :: map (fun line => v ++ pad_right line inner_width ++ v) lines
        ++ [bl ++ copies h inner_width ++ br] in
    - 2 ^ 63 <= inner_width < 2 ^ 63 /\
    out = join [NL] parts /\
    split NL out = parts.
Proof.
  intros O lines.
  destruct (draw_lines sys_stdout content width_ style_ term_)
    as (max_len & tl & tr & bl & br & h & v & MF & ME & G & D & R & S).
  fold lines in MF, ME, D, R, S. cbn zeta in D, R, S.
  exists max_len, tl, tr, bl, br, h, v.
  split; [exact MF|]. split; [exact ME|]. split; [exact G|]. cbn zeta.
  assert (I : - 2 ^ 63 <= box_width width_ max_len - 2 < 2 ^ 63).
  { destruct (Z.lt_ge_cases (box_width width_ max_len - 2) (- 2 ^ 63)) as [L|L];
      [rewrite R in O by lia; discriminate|].
    destruct (Z.lt_ge_cases (box_width width_ max_len - 2) (2 ^ 63)) as [U|U];
      [lia | rewrite R in O by lia; discriminate]. }
  split; [exact I|].
  rewrite (D I) in O. injection O as <-.
  split; [reflexivity | exact S].
Qed.

(** X16. The lines of a box and their lengths, when Box.draw returns
    (the width inside the borders is then an ssize_t). With W the width
    that draw works with (width, or the longest content line plus 4 when
    width is None or 0), the borders are max(W, 2) characters long and the
    row of a content line is max(W, len(line) + 2) characters long. So the
    box is a rectangle, every line W characters long, when
    W >= longest line + 2 (as it is when width is not given); a content
    line longer than W - 2 is not cut: its row is len(line) + 2 characters
    long and, unless the line is empty, sticks out of the borders. *)
Theorem X16_box_line_lengths :
  forall (sys_stdout : Stream) (content : pystr) (width_ : option Z)
         (style_ : pystr) (term_ : option Terminal) (out : pystr),
    draw sys_stdout content width_ style_ term_ = Ok out ->
    let lines := split NL content in
    exists max_len top rows bottom,
      Forall (fun line => len line <= max_len) lines /\
      Exists (fun line => len line = max_len) lines /\
      let W := box_width width_ max_len in
      - 2 ^ 63 <= W - 2 < 2 ^ 63 /\
      split NL out = top :: rows ++ [bottom] /\
      len top = Z.max W 2 /\ len bottom = Z.max W 2 /\
      map len rows = map (fun line => Z.max W (len line + 2)) lines /\
      (max_len + 2 <= W -> Forall (fun l => len l = W) (split NL out)) /\
      (forall line, In line lines -> W - 2 < len line ->
         exists row, In row rows /\ len row = len line + 2 /\
                     (0 < len line -> len top < len row)).
Proof.
  intros sys_stdout content width_ style_ term_ out O lines.
  destruct (draw_ok_lines _ _ _ _ _ _ O)
    as (max_len & tl & tr & bl & br & h & v & MF & ME & G & I & _ & S).
  fold lines in MF, ME, S. cbn zeta in I, S.
  destruct (glyphs_of_style _ _ _ _ _ _ _ G) as [(Ltl & Ltr & Lbl & Lbr & Lh & Lv) _].
  set (W := box_width width_ max_len) in *.
  exists max_len.
  exists (tl ++ copies h (W - 2) ++ tr),
         (map (fun line => v ++ pad_right line (W - 2) ++ v) lines),
         (bl ++ copies h (W - 2) ++ br).
  split; [exact MF|]. split; [exact ME|]. cbn zeta.
  split; [exact I|]. split; [exact S|].
  assert (Lt : len (tl ++ copies h (W - 2) ++ tr) = Z.max W 2).
  { rewrite !len_app, len_copies_glyph, !len_glyph by assumption. lia. }
  assert (Lb : len (bl ++ copies h (W - 2) ++ br) = Z.max W 2).
  { rewrite !len_app, len_copies_glyph, !len_glyph by assumption. lia. }
  assert (Lr : forall line,
             len (v ++ pad_right line (W - 2) ++ v) = Z.max W (len line + 2)).
  { intros line. rewrite !len_app, len_pad_right, !len_glyph by assumption. lia. }
  split; [exact Lt|]. split; [exact Lb|].
  split.
  { rewrite map_map. apply map_ext. exact Lr. }
  split.
  { intros Fit.
    assert (M0 : 0 <= max_len).
    { apply Exists_exists in ME. destruct ME as (l0 & _ & <-). unfold len; lia. }
    rewrite S. constructor; [lia|].
    apply Forall_app; split; [|repeat constructor; lia].
    apply Forall_map. eapply Forall_impl; [|exact MF].
    cbn beta. intros line Hl. rewrite Lr. lia. }
  intros line J Long.
  exists (v ++ pad_right line (W - 2) ++ v).
  split; [apply in_map_iff; exists line; split; [reflexivity | exact J]|].
  rewrite Lr, Lt. lia.
Qed.

Lemma X16_box_line_lengths_witness :
  let out := {| isatty := false; written := [] |} in
  exists o, draw out (lit "abcdef") (Some 5) (lit "heavy") None = Ok o /\
            map len (split NL o) = [5; 8; 5].
Proof.
  intros out.
  eexists. split; [vm_compute; reflexivity|].
  destruct (X16_box_line_lengths out (lit "abcdef") (Some 5) (lit "heavy") None _
              ltac:(vm_compute; reflexivity))
    as (m & top & rows & bottom & _ & _ & _ & S & Lt & Lb & Lr & _).
  cbn zeta in Lt, Lb, Lr. cbn [box_width] in Lt, Lb, Lr.
  rewrite S. cbn [map]. rewrite map_app, Lr, Lt. cbn [map]. rewrite Lb.
  reflexivity.
Defined.





(** ** Clean text off a TTY *)

Lemma plain_not_escape (s : pystr) : Forall plain s -> ~ In 27 s.
Proof.
  intros F I. rewrite Forall_forall in F. specialize (F 27 I).
  unfold plain in F. lia.
Qed.

Lemma bar_not_escape (s : pystr) : Forall bar_glyph s -> ~ In 27 s.
Proof.
  intros F I. rewrite Forall_forall in F. specialize (F 27 I).
  destruct F; discriminate.
Qed.

Lemma message_suffix_free (m : pystr) : ~ In 27 m -> ~ In 27 (message_suffix m).
Proof.
  intros H. destruct m as [|c m]; [intros []|].
  change (message_suffix (c :: m)) with (32 :: c :: m).
  intros [E|I]; [discriminate | exact (H I)].
Qed.

Lemma update_clean_off_tty (b : ProgressBar) current_ (m : pystr) :
  is_tty (term b) = false -> ~ In 27 m ->
  exists chunks,
    appends (term b) (term (fst (update current_ m b))) chunks /\
    Forall (fun ch => ~ In 27 ch) chunks.
Proof.
  intros T Hm.
  assert (Pre : Forall (fun ch : pystr => ~ In 27 ch) (redraw_chunks b)).
  { unfold redraw_chunks, _escape. unfold is_tty in T. rewrite T.
    destruct (_started b); repeat constructor; intros []. }
  destruct (update_outcome current_ m b) as [_ [(e & _ & A)|(bar & shown & _ & A & Gb & Ps & _)]].
  - eexists; split; [exact A | exact Pre].
  - eexists; split; [exact A|].
    apply Forall_app; split; [exact Pre|].
    constructor; [|constructor].
    rewrite !in_app_iff.
    pose proof (plain_not_escape shown Ps). pose proof (bar_not_escape bar Gb).
    pose proof (message_suffix_free m Hm).
    cbn [lit map list_ascii_of_string In]. intuition discriminate.
Qed.

(** X7. Off a TTY the widgets write no escape character: on a terminal
    that is not a TTY, whatever update, finish, spin and stop write holds no
    ESC (code 27), provided the message given holds none, also when update
    raises. *)
Theorem X7_widgets_write_no_escape_off_tty :
  forall (t : Terminal),
    is_tty t = false ->
    (forall (b : ProgressBar) current_ (m : pystr),
        term b = t -> ~ In 27 m ->
        exists chunks,
          appends t (term (fst (update current_ m b))) chunks /\
          Forall (fun ch => ~ In 27 ch) chunks) /\
    (forall (b : ProgressBar) (m : option pystr),
        term b = t -> (forall x, m = Some x -> ~ In 27 x) ->
        exists chunks,
          appends t (term (fst (finish m b))) chunks /\
          Forall (fun ch => ~ In 27 ch) chunks) /\
    (forall (s : Spinner),
        spinner_term s = t -> ~ In 27 (message s) ->
        exists chunks,
          appends t (spinner_term (fst (spin s))) chunks /\
          Forall (fun ch => ~ In 27 ch) chunks) /\
    (forall (s : Spinner) (m : option pystr),
        spinner_term s = t -> (forall x, m = Some x -> ~ In 27 x) ->
        exists chunks,
          appends t (spinner_term (fst (stop m s))) chunks /\
          Forall (fun ch => ~ In 27 ch) chunks).
Proof.
  intros t T.
  split; [intros b c m <- Hm; now apply update_clean_off_tty|].
  split.
  { intros b m <- Hm. unfold finish. apply update_clean_off_tty; [exact T|].
    destruct m as [x|]; [now apply Hm|]. cbn. intuition discriminate. }
  split.
  { intros s <- Hm.
    destruct (spin_outcome s) as (s' & R & _ & _ & _ & A).
    rewrite R. cbn [fst]. eexists; split; [exact A|].
    unfold _escape. unfold is_tty in T. rewrite T.
    repeat constructor; try (intros []).
    rewrite in_app_iff. change (lit " " ++ message s) with (32 :: message s).
    set (fr := nth (Z.to_nat (_frame s mod 10)) FRAMES []).
    assert (H : In fr FRAMES).
    { apply nth_In. change (length FRAMES) with 10%nat.
      pose proof (Z.mod_pos_bound (_frame s) 10 ltac:(lia)). lia. }
    clearbody fr. intros [I|[E|I]]; [|discriminate | exact (Hm I)].
    unfold FRAMES in H. cbn [In] in H.
    repeat (destruct H as [<-|H]; [cbn in I; intuition discriminate|]).
    contradiction. }
  intros s m <- Hm.
  destruct (stop_outcome s m) as (s1 & R & _ & _ & W).
  rewrite R. cbn [fst].
  assert (I1 : _is_tty (spinner_term s1) = _is_tty (spinner_term s)
               /\ isatty (stream (spinner_term s1)) = isatty (stream (spinner_term s))).
  { clear W. unfold stop, bindM, modify, ret in R.
    destruct m as [[|c x]|]; injection R as <-; split; reflexivity. }
  eexists; split; [split; [apply I1 | split; [apply I1 | exact W]]|].
  unfold _escape. unfold is_tty in T. rewrite T.
  apply Forall_app; split; [repeat constructor; intros []|].
  destruct m as [[|c x]|]; [constructor | | constructor].
  constructor; [|constructor].
  specialize (Hm (c :: x) eq_refl).
  intros I.
  change ([10003; 32] ++ (c :: x) ++ [10]) with (10003 :: 32 :: (c :: x) ++ [10]) in I.
  destruct I as [E|[E|I]]; try discriminate.
  apply in_app_iff in I. destruct I as [I|[E|[]]]; [exact (Hm I) | discriminate].
Qed.

Lemma X7_widgets_write_no_escape_off_tty_witness :
  let t := {| stream := {| isatty := false; written := [] |}; _is_tty := false |} in
  let b := {| total := 3; width := 5; term := t; current := 1; _started := true |} in
  exists chunks,
    appends t (term (fst (update None (lit "step") b))) chunks /\
    Forall (fun ch => ~ In 27 ch) chunks.
Proof.
  intros t b.
  apply (proj1 (X7_widgets_write_no_escape_off_tty t eq_refl) b None (lit "step")).
  - reflexivity.
  - cbn. intuition discriminate.
Defined.

Lemma X13_spins_add_their_frames_witness :
  let t := {| stream := {| isatty := false; written := [lit "x"] |}; _is_tty := false |} in
  let s0 := {| message := lit "wait"; spinner_term := t; _frame := 8; _running := false |} in
  exists s,
    spins 3 s0 = (s, Ok tt) /\
    contents (stream (spinner_term s))
    = lit "x" ++ [10247] ++ lit " wait" ++ [10255] ++ lit " wait"
      ++ [10251] ++ lit " wait" /\
    count_occ Z.eq_dec (contents (stream (spinner_term s))) 10 = 0%nat.
Proof.
  intros t s0.
  destruct (X13_spins_add_their_frames s0 3) as (s & R & _ & C & N).
  exists s. split; [exact R|]. split; [rewrite C; reflexivity|].
  rewrite N; [reflexivity | reflexivity |].
  cbn. intuition discriminate.
Defined.

(** ** The characters of a box *)

Lemma in_join (c : pychar) (sep : pystr) (parts : list pystr) :
  In c (join sep parts) -> In c sep \/ exists p, In p parts /\ In c p.
Proof.
  induction parts as [|p ps IH]; [intros []|].
  destruct ps as [|p' ps].
  - cbn [join]. intros I. right. exists p. split; [now left | exact I].
  - change (join sep (p :: p' :: ps)) with (p ++ sep ++ join sep (p' :: ps)).
    rewrite !in_app_iff. intros [I|[I|I]].
    + right. exists p. split; [now left | exact I].
    + now left.
    + destruct (IH I) as [J|(q & Q & J)]; [now left|].
      right. exists q. split; [now right | exact J].
Qed.

Lemma in_split (c x : pychar) (s p : pystr) :
  In p (split c s) -> In x p -> In x s.
Proof.
  revert p; induction s as [|y s IH]; intros p; cbn [split].
  - intros [<-|[]] [].
  - destruct (Z.eqb_spec y c) as [->|N].
    + intros [<-|I] J; [destruct J | right; eapply IH; eassumption].
    + pose proof (split_nonempty c s) as NE.
      destruct (split c s) as [|q qs]; [congruence|].
      intros [<-|I] J.
      * destruct J as [<-|J]; [now left | right; apply (IH q); [now left | exact J]].
      * right. apply (IH p); [now right | exact J].
Qed.

(** X18. Box.draw adds nothing but its frame: every character of a
    result that it returns is a character of the content, a space, a
    newline or a box-drawing glyph (U+2500 to U+2570); so a content
    without escape characters gives a box without them, whatever terminal
    is passed. *)
Theorem X18_box_characters :
  forall (sys_stdout : Stream) (content : pystr) (width_ : option Z)
         (style_ : pystr) (term_ : option Terminal) (out : pystr),
    draw sys_stdout content width_ style_ term_ = Ok out ->
    (forall c, In c out ->
               In c content \/ c = 32 \/ c = 10 \/ 9472 <= c <= 9584) /\
    (~ In 27 content -> ~ In 27 out).
Proof.
  intros sys_stdout content width_ style_ term_ out O.
  destruct (draw_ok_lines _ _ _ _ _ _ O)
    as (max_len & tl & tr & bl & br & h & v & _ & _ & G & _ & E & _).
  cbn zeta in E.
  destruct (glyphs_of_style _ _ _ _ _ _ _ G) as [_ GF].
  assert (NG : forall g c, In g [tl; tr; bl; br; h; v] -> In c g -> 9472 <= c <= 9584).
  { intros g c I J. rewrite Forall_forall in GF. specialize (GF g I).
    rewrite Forall_forall in GF. exact (GF c J). }
  assert (SM : forall c n, In c (copies h n) -> 9472 <= c <= 9584).
  { intros c n I. unfold copies in I. apply in_concat in I.
    destruct I as (g & Ig & Ic). apply repeat_spec in Ig. subst g.
    apply (NG h); [cbn; tauto | exact Ic]. }
  assert (A : forall c,
             In c out ->
             In c content \/ c = 32 \/ c = 10 \/ 9472 <= c <= 9584).
  { intros c I. rewrite E in I.
    apply in_join in I. destruct I as [[<-|[]]|(p & Ip & Ic)].
    { right; right; left; reflexivity. }
    destruct Ip as [<-|Ip].
    { rewrite !in_app_iff in Ic. destruct Ic as [Ic|[Ic|Ic]].
      - right; right; right. apply (NG tl); [cbn; tauto | exact Ic].
      - right; right; right. eapply SM; exact Ic.
      - right; right; right. apply (NG tr); [cbn; tauto | exact Ic]. }
    apply in_app_iff in Ip. destruct Ip as [Ip|[<-|[]]].
    - apply in_map_iff in Ip. destruct Ip as (line & <- & Il).
      unfold pad_right in Ic. rewrite !in_app_iff in Ic.
      destruct Ic as [Ic|[[Ic|Ic]|Ic]].
      + right; right; right. apply (NG v); [cbn; tauto | exact Ic].
      + left. eapply in_split; eassumption.
      + apply repeat_spec in Ic. right; left; exact Ic.
      + right; right; right. apply (NG v); [cbn; tauto | exact Ic].
    - rewrite !in_app_iff in Ic. destruct Ic as [Ic|[Ic|Ic]].
      + right; right; right. apply (NG bl); [cbn; tauto | exact Ic].
      + right; right; right. eapply SM; exact Ic.
      + right; right; right. apply (NG br); [cbn; tauto | exact Ic]. }
  split; [exact A|].
  intros H I. destruct (A 27 I) as [J|[J|[J|J]]]; [exact (H J) | | | ]; lia.
Qed.

Lemma X18_box_characters_witness :
  let t := {| stream := {| isatty := true; written := [] |}; _is_tty := true |} in
  exists out,
    draw (stream t) (lit "a b" ++ [NL] ++ lit "c") None (lit "rounded") (Some t) = Ok out /\
    ~ In 27 out.
Proof.
  intros t.
  eexists. split; [vm_compute; reflexivity|].
  apply (X18_box_characters (stream t) (lit "a b" ++ [NL] ++ lit "c") None
                            (lit "rounded") (Some t) _ ltac:(vm_compute; reflexivity)).
  cbn. intuition discriminate.
Defined.
